(** * ZamaFHEPackage: the decryption-request lifecycle of the contract

    A shallow embedding of the Solidity contract [ZamaFHEPackage]
    (src/frontend/web/src/App.tsx, lines 661-823) and the properties of its
    request / callback state machine. *)

From Stdlib Require Import ZArith Lia List Ascii String Sorted.
From stdpp Require Import base option gmap strings list.

Local Open Scope Z_scope.

(** ** Solidity builtins *)

(** [keccak256], as the EVM computes it: Keccak-f[1600] with rate 136 bytes,
    the original Keccak padding (0x01 .. 0x80) and a 32 byte digest.  Lanes
    are 64-bit words held in [Z]. *)
Module Keccak.

Definition mask64 : Z := Z.ones 64.

Definition rotl64 (x : Z) (n : Z) : Z :=
  Z.lor (Z.land (Z.shiftl x n) mask64) (Z.shiftr x (64 - n)).

Definition not64 (x : Z) : Z := Z.lxor x mask64.

(** The 25 lanes, lane [(x, y)] at index [x + 5 * y]. *)
Definition lanes := list Z.

Definition lane (a : lanes) (x y : nat) : Z :=
  nth ((x mod 5) + 5 * (y mod 5))%nat a 0.

Definition build (f : nat -> nat -> Z) : lanes :=
  flat_map (fun y => map (fun x => f x y) (seq 0 5)) (seq 0 5).

Definition rotation_offsets : list Z :=
  [  0;  1; 62; 28; 27;
    36; 44;  6; 55; 20;
     3; 10; 43; 25; 39;
    41; 45; 15; 21;  8;
    18;  2; 61; 56; 14 ].

Definition round_constants : list Z :=
  [ 0x0000000000000001; 0x0000000000008082; 0x800000000000808A;
    0x8000000080008000; 0x000000000000808B; 0x0000000080000001;
    0x8000000080008081; 0x8000000000008009; 0x000000000000008A;
    0x0000000000000088; 0x0000000080008009; 0x000000008000000A;
    0x000000008000808B; 0x800000000000008B; 0x8000000000008089;
    0x8000000000008003; 0x8000000000008002; 0x8000000000000080;
    0x000000000000800A; 0x800000008000000A; 0x8000000080008081;
    0x8000000000008080; 0x0000000080000001; 0x8000000080008008 ].

Definition theta (a : lanes) : lanes :=
  let c x := fold_left Z.lxor (map (lane a x) (seq 0 5)) 0 in
  let d x := Z.lxor (c (x + 4)%nat) (rotl64 (c (x + 1)%nat) 1) in
  build (fun x y => Z.lxor (lane a x y) (d x)).

(** rho and pi together: B[y, 2x + 3y] = rot(A[x, y], r[x, y]); read the
    other way round, B[x, y] comes from A[x + 3y, x]. *)
Definition rho_pi (a : lanes) : lanes :=
  build (fun x y =>
    let x0 := ((x + 3 * y) mod 5)%nat in
    let y0 := x in
    rotl64 (lane a x0 y0) (nth (x0 + 5 * y0)%nat rotation_offsets 0)).

Definition chi (b : lanes) : lanes :=
  build (fun x y =>
    Z.lxor (lane b x y)
           (Z.land (not64 (lane b (x + 1) y)) (lane b (x + 2) y))).

Definition iota (rc : Z) (a : lanes) : lanes :=
  match a with
  | [] => []
  | a0 :: rest => Z.lxor a0 rc :: rest
  end.

Definition round (a : lanes) (rc : Z) : lanes :=
  iota rc (chi (rho_pi (theta a))).

Definition keccak_f (a : lanes) : lanes :=
  fold_left round round_constants a.

(** Little-endian bytes <-> lane. *)
Fixpoint le_to_Z (bs : list Z) : Z :=
  match bs with
  | [] => 0
  | b :: rest => b + 256 * le_to_Z rest
  end.

Fixpoint Z_to_le (n : nat) (z : Z) : list Z :=
  match n with
  | O => []
  | S n' => Z.land z 255 :: Z_to_le n' (Z.shiftr z 8)
  end.

Fixpoint chunk (fuel : nat) (size : nat) (l : list Z) : list (list Z) :=
  match fuel with
  | O => []
  | S fuel' =>
      match l with
      | [] => []
      | _ => firstn size l :: chunk fuel' size (skipn size l)
      end
  end.

Definition rate : nat := 136.

(** pad10*1 with the Keccak domain byte 0x01. *)
Definition pad (msg : list Z) : list Z :=
  let q := (rate - (length msg mod rate))%nat in
  if (q =? 1)%nat then msg ++ [0x81]
  else msg ++ [0x01] ++ repeat 0 (q - 2) ++ [0x80].

Definition absorb (a : lanes) (block : list Z) : lanes :=
  let ws := map le_to_Z (chunk 25 8 block) in
  keccak_f (build (fun x y =>
    Z.lxor (lane a x y) (nth (x + 5 * y)%nat ws 0))).

Definition digest (msg : list Z) : list Z :=
  let p := pad msg in
  let a := fold_left absorb (chunk (length p) rate p) (repeat 0 25) in
  firstn 32 (flat_map (Z_to_le 8) a).

Fixpoint be_to_Z (acc : Z) (bs : list Z) : Z :=
  match bs with
  | [] => acc
  | b :: rest => be_to_Z (256 * acc + b) rest
  end.

Fixpoint bytes_of_string (s : string) : list Z :=
  match s with
  | EmptyString => []
  | String c rest => Z.of_N (N_of_ascii c) :: bytes_of_string rest
  end.

End Keccak.

(** [keccak256(bytes)] yields a [bytes32]; [abi.encodePacked] of one string
    is the string's bytes. *)
Definition keccak256 (data : list Z) : list Z := Keccak.digest data.

Definition abi_encodePacked (s : string) : list Z := Keccak.bytes_of_string s.

Definition MAX_UINT256 : Z := 2 ^ 256 - 1.

(** ** The FHE library *)

Module FHE.

(** Modelled from the spec: the library [@fhevm/solidity/lib/FHE.sol] is
    imported by the contract and is not part of the sources.  A ciphertext
    handle is an opaque reference to an encrypted value that may still be
    uninitialized; the model keeps the value the handle stands for.  The type
    is the source's [euint32], so the value is a 32-bit unsigned integer. *)
Inductive euint32 : Type :=
| Uninitialized
| Encrypted (plain : Z).

Definition isInitialized (h : euint32) : bool :=
  match h with
  | Uninitialized => false
  | Encrypted _ => true
  end.

Definition cleartext (h : euint32) : Z :=
  match h with
  | Uninitialized => 0
  | Encrypted v => v
  end.

(** [FHE.asEuint32(v)]: the trivial encryption of a constant. *)
Definition asEuint32 (v : Z) : euint32 := Encrypted (v mod 2 ^ 32).

(** [FHE.add(a, b)]: homomorphic addition of 32-bit values. *)
Definition add (a b : euint32) : euint32 :=
  Encrypted ((cleartext a + cleartext b) mod 2 ^ 32).

(** Callback selectors handed to [FHE.requestDecryption]. *)
Inductive Selector : Type :=
| decryptPackage_selector
| decryptVersionCount_selector.

End FHE.

Export FHE (euint32).

#[global] Instance euint32_inhabited : Inhabited euint32 :=
  populate FHE.Uninitialized.

#[global] Instance euint32_eq_dec : EqDecision euint32.
Proof. solve_decision. Defined.

(** ** Storage *)

Abbreviation bytes := (list Byte.byte).

#[global] Instance byte_eq_dec : EqDecision Byte.byte := Byte.byte_eq_dec.

Record EncryptedPackageData : Type := {
  id_ : Z;
  encryptedName : euint32;
  encryptedVersion : euint32;
  encryptedDescription : euint32;
  timestamp : Z
}.

Record DecryptedPackageData : Type := {
  name : string;
  version : string;
  description : string;
  isRevealed : bool
}.

(** A mapping slot never written reads as the zero value of its type. *)
#[global] Instance EncryptedPackageData_inhabited : Inhabited EncryptedPackageData :=
  populate {| id_ := 0;
              encryptedName := FHE.Uninitialized;
              encryptedVersion := FHE.Uninitialized;
              encryptedDescription := FHE.Uninitialized;
              timestamp := 0 |}.

#[global] Instance DecryptedPackageData_inhabited : Inhabited DecryptedPackageData :=
  populate {| name := ""; version := ""; description := ""; isRevealed := false |}.

Inductive Event : Type :=
| PackageSubmitted (id timestamp : Z)
| DecryptionRequested (id : Z)
| PackageDecrypted (id : Z).

(** The contract's storage, the request counter the FHE library keeps in the
    contract's storage for [FHE.requestDecryption], and the event log. *)
Record State : Type := {
  packageCount : Z;
  encryptedPackages : gmap Z EncryptedPackageData;
  decryptedPackages : gmap Z DecryptedPackageData;
  encryptedVersionCount : gmap string euint32;
  versionList : list string;
  requestToPackageId : gmap Z Z;
  counterRequest : Z;
  events : list Event
}.

Definition initial : State := {|
  packageCount := 0;
  encryptedPackages := ∅;
  decryptedPackages := ∅;
  encryptedVersionCount := ∅;
  versionList := [];
  requestToPackageId := ∅;
  counterRequest := 0;
  events := []
|}.

Definition set_packageCount (v : Z) (s : State) : State :=
  {| packageCount := v;
     encryptedPackages := encryptedPackages s;
     decryptedPackages := decryptedPackages s;
     encryptedVersionCount := encryptedVersionCount s;
     versionList := versionList s;
     requestToPackageId := requestToPackageId s;
     counterRequest := counterRequest s;
     events := events s |}.

Definition set_encryptedPackages (v : gmap Z EncryptedPackageData) (s : State) : State :=
  {| packageCount := packageCount s;
     encryptedPackages := v;
     decryptedPackages := decryptedPackages s;
     encryptedVersionCount := encryptedVersionCount s;
     versionList := versionList s;
     requestToPackageId := requestToPackageId s;
     counterRequest := counterRequest s;
     events := events s |}.

Definition set_decryptedPackages (v : gmap Z DecryptedPackageData) (s : State) : State :=
  {| packageCount := packageCount s;
     encryptedPackages := encryptedPackages s;
     decryptedPackages := v;
     encryptedVersionCount := encryptedVersionCount s;
     versionList := versionList s;
     requestToPackageId := requestToPackageId s;
     counterRequest := counterRequest s;
     events := events s |}.

Definition set_encryptedVersionCount (v : gmap string euint32) (s : State) : State :=
  {| packageCount := packageCount s;
     encryptedPackages := encryptedPackages s;
     decryptedPackages := decryptedPackages s;
     encryptedVersionCount := v;
     versionList := versionList s;
     requestToPackageId := requestToPackageId s;
     counterRequest := counterRequest s;
     events := events s |}.

Definition set_versionList (v : list string) (s : State) : State :=
  {| packageCount := packageCount s;
     encryptedPackages := encryptedPackages s;
     decryptedPackages := decryptedPackages s;
     encryptedVersionCount := encryptedVersionCount s;
     versionList := v;
     requestToPackageId := requestToPackageId s;
     counterRequest := counterRequest s;
     events := events s |}.

Definition set_requestToPackageId (v : gmap Z Z) (s : State) : State :=
  {| packageCount := packageCount s;
     encryptedPackages := encryptedPackages s;
     decryptedPackages := decryptedPackages s;
     encryptedVersionCount := encryptedVersionCount s;
     versionList := versionList s;
     requestToPackageId := v;
     counterRequest := counterRequest s;
     events := events s |}.

Definition set_counterRequest (v : Z) (s : State) : State :=
  {| packageCount := packageCount s;
     encryptedPackages := encryptedPackages s;
     decryptedPackages := decryptedPackages s;
     encryptedVersionCount := encryptedVersionCount s;
     versionList := versionList s;
     requestToPackageId := requestToPackageId s;
     counterRequest := v;
     events := events s |}.

Definition set_events (v : list Event) (s : State) : State :=
  {| packageCount := packageCount s;
     encryptedPackages := encryptedPackages s;
     decryptedPackages := decryptedPackages s;
     encryptedVersionCount := encryptedVersionCount s;
     versionList := versionList s;
     requestToPackageId := requestToPackageId s;
     counterRequest := counterRequest s;
     events := v |}.

(** ** Execution monad

    A function body threads the storage and may stop with an error.  The
    storage reached when the error is raised is kept in the result, so that
    what a body wrote before failing stays visible; [exec] below discards it,
    as a reverted transaction does. *)

Inductive Error : Type :=
| RequireFailed (reason : string)   (* require(cond, reason), revert(reason) *)
| Panic (code : Z)                  (* 0x11 overflow, 0x32 index out of range *)
| InvalidProof                      (* FHE.checkSignatures rejects the proof *)
| MalformedPayload.                 (* abi.decode rejects the cleartexts *)

Definition M (A : Type) : Type := State -> (Error + A) * State.

#[global] Instance M_ret : MRet M := fun A a s => (inr a, s).

#[global] Instance M_bind : MBind M := fun A B k m s =>
  match m s with
  | (inr a, s') => k a s'
  | (inl e, s') => (inl e, s')
  end.

Definition throw {A : Type} (e : Error) : M A := fun s => (inl e, s).

Definition get : M State := fun s => (inr s, s).

Definition modify (f : State -> State) : M unit := fun s => (inr tt, f s).

Definition require (cond : bool) (reason : string) : M unit :=
  if cond then mret tt else throw (RequireFailed reason).

Definition emit (e : Event) : M unit :=
  modify (fun s => set_events (events s ++ [e]) s).

(** Checked [uint256] addition of Solidity 0.8. *)
Definition checked_add (a b : Z) : M Z :=
  if a + b <=? MAX_UINT256 then mret (a + b) else throw (Panic 0x11).

(** Reading element [i] of a memory array. *)
Definition index {A : Type} (l : list A) (i : nat) : M A :=
  match l !! i with
  | Some x => mret x
  | None => throw (Panic 0x32)
  end.

(** ** What the contract takes from outside

    The proof verification of the FHE library and Solidity's ABI decoder are
    not part of the sources; the contract is modelled over any verdict and any
    decoder. *)
Record Env : Type := {
  verifySignatures : Z -> bytes -> bytes -> bool;
  abi_decode_strings : bytes -> option (list string);
  abi_decode_uint32 : bytes -> option Z
}.

(** Modelled from the spec: [FHE.requestDecryption] forwards the ciphertext
    handles to the oracle and returns the oracle-assigned request id, which
    is unique for the lifetime of the system: the ids are handed out by a
    counter. *)
Definition FHE_requestDecryption (ciphertexts : list euint32)
    (selector : FHE.Selector) : M Z :=
  s ← get;
  let requestID := counterRequest s in
  next ← checked_add requestID 1;
  modify (set_counterRequest next);;
  mret requestID.

(** [FHE.toBytes32] unwraps a handle. *)
Definition FHE_toBytes32 (h : euint32) : euint32 := h.

Section Contract.

Context (env : Env).

(** [FHE.checkSignatures] reverts when the proof does not verify. *)
Definition FHE_checkSignatures (requestId : Z) (cleartexts proof : bytes) : M unit :=
  if verifySignatures env requestId cleartexts proof
  then mret tt
  else throw InvalidProof.

Definition abi_decode {A : Type} (r : option A) : M A :=
  match r with
  | Some x => mret x
  | None => throw MalformedPayload
  end.

Definition bytes32ToUint (b : list Z) : Z := Keccak.be_to_Z 0 b.

Definition submitEncryptedPackage
    (encryptedName encryptedVersion encryptedDescription : euint32)
    (block_timestamp : Z) : M unit :=
  s ← get;
  count ← checked_add (packageCount s) 1;
  modify (set_packageCount count);;
  let newId := count in
  modify (fun s => set_encryptedPackages
    (<[newId := {| id_ := newId;
                   encryptedName := encryptedName;
                   encryptedVersion := encryptedVersion;
                   encryptedDescription := encryptedDescription;
                   timestamp := block_timestamp |}]> (encryptedPackages s)) s);;
  modify (fun s => set_decryptedPackages
    (<[newId := {| name := ""; version := ""; description := "";
                   isRevealed := false |}]> (decryptedPackages s)) s);;
  emit (PackageSubmitted newId block_timestamp).

(** The modifier [onlyContributor] has an empty body. *)
Definition requestPackageDecryption (packageId : Z) : M unit :=
  s ← get;
  let pkg := encryptedPackages s !!! packageId in
  require (negb (isRevealed (decryptedPackages s !!! packageId)))
          "Already decrypted";;
  let ciphertexts := [ FHE_toBytes32 (encryptedName pkg);
                       FHE_toBytes32 (encryptedVersion pkg);
                       FHE_toBytes32 (encryptedDescription pkg) ] in
  reqId ← FHE_requestDecryption ciphertexts FHE.decryptPackage_selector;
  modify (fun s => set_requestToPackageId
    (<[reqId := packageId]> (requestToPackageId s)) s);;
  emit (DecryptionRequested packageId).

(** Writes through the storage reference [dPkg]. *)
Definition update_dPkg (packageId : Z)
    (f : DecryptedPackageData -> DecryptedPackageData) : M unit :=
  modify (fun s => set_decryptedPackages
    (<[packageId := f (decryptedPackages s !!! packageId)]> (decryptedPackages s)) s).

(** A slot of [requestToPackageId] that was never written reads as 0. *)
Definition decryptPackage (requestId : Z) (cleartexts proof : bytes) : M unit :=
  s ← get;
  let packageId := default 0 (requestToPackageId s !! requestId) in
  require (negb (packageId =? 0)) "Invalid request";;
  require (negb (isRevealed (decryptedPackages s !!! packageId)))
          "Already decrypted";;
  FHE_checkSignatures requestId cleartexts proof;;
  results ← abi_decode (abi_decode_strings env cleartexts);
  r0 ← index results 0;
  update_dPkg packageId (fun d =>
    {| name := r0; version := version d; description := description d;
       isRevealed := isRevealed d |});;
  r1 ← index results 1;
  update_dPkg packageId (fun d =>
    {| name := name d; version := r1; description := description d;
       isRevealed := isRevealed d |});;
  r2 ← index results 2;
  update_dPkg packageId (fun d =>
    {| name := name d; version := version d; description := r2;
       isRevealed := isRevealed d |});;
  update_dPkg packageId (fun d =>
    {| name := name d; version := version d; description := description d;
       isRevealed := true |});;
  s ← get;
  let ver := version (decryptedPackages s !!! packageId) in
  (if negb (FHE.isInitialized (encryptedVersionCount s !!! ver)) then
     modify (fun s => set_encryptedVersionCount
       (<[ver := FHE.asEuint32 0]> (encryptedVersionCount s)) s);;
     modify (fun s => set_versionList (versionList s ++ [ver]) s)
   else mret tt);;
  modify (fun s => set_encryptedVersionCount
    (<[ver := FHE.add (encryptedVersionCount s !!! ver) (FHE.asEuint32 1)]>
       (encryptedVersionCount s)) s);;
  emit (PackageDecrypted packageId).

Definition getDecryptedPackage (packageId : Z) : M (string * string * string * bool) :=
  s ← get;
  let pkg := decryptedPackages s !!! packageId in
  mret (name pkg, version pkg, description pkg, isRevealed pkg).

Definition getEncryptedVersionCount (ver : string) : M euint32 :=
  s ← get;
  mret (encryptedVersionCount s !!! ver).

Definition requestVersionCountDecryption (ver : string) : M unit :=
  s ← get;
  let count := encryptedVersionCount s !!! ver in
  require (FHE.isInitialized count) "Version not found";;
  let ciphertexts := [ FHE_toBytes32 count ] in
  reqId ← FHE_requestDecryption ciphertexts FHE.decryptVersionCount_selector;
  modify (fun s => set_requestToPackageId
    (<[reqId := bytes32ToUint (keccak256 (abi_encodePacked ver))]>
       (requestToPackageId s)) s).

(** The loop of [getVersionFromHash] over [versionList]. *)
Fixpoint scanVersions (hash : Z) (l : list string) : option string :=
  match l with
  | [] => None
  | v :: rest =>
      if bytes32ToUint (keccak256 (abi_encodePacked v)) =? hash
      then Some v
      else scanVersions hash rest
  end.

Definition getVersionFromHash (hash : Z) : M string :=
  s ← get;
  match scanVersions hash (versionList s) with
  | Some v => mret v
  | None => throw (RequireFailed "Version not found")
  end.

Definition decryptVersionCount (requestId : Z) (cleartexts proof : bytes) : M unit :=
  s ← get;
  let versionHash := default 0 (requestToPackageId s !! requestId) in
  ver ← getVersionFromHash versionHash;
  FHE_checkSignatures requestId cleartexts proof;;
  count ← abi_decode (abi_decode_uint32 env cleartexts);
  mret tt.

(** ** Transactions *)

Inductive Call : Type :=
| SubmitEncryptedPackage
    (encryptedName encryptedVersion encryptedDescription : euint32)
    (block_timestamp : Z)
| RequestPackageDecryption (packageId : Z)
| DecryptPackage (requestId : Z) (cleartexts proof : bytes)
| RequestVersionCountDecryption (ver : string)
| DecryptVersionCount (requestId : Z) (cleartexts proof : bytes).

Definition body (c : Call) : M unit :=
  match c with
  | SubmitEncryptedPackage n v d t => submitEncryptedPackage n v d t
  | RequestPackageDecryption packageId => requestPackageDecryption packageId
  | DecryptPackage r c p => decryptPackage r c p
  | RequestVersionCountDecryption v => requestVersionCountDecryption v
  | DecryptVersionCount r c p => decryptVersionCount r c p
  end.

(** The error of a transaction, if it reverts. *)
Definition outcome (s : State) (c : Call) : option Error :=
  match body c s with
  | (inl e, _) => Some e
  | (inr _, _) => None
  end.

Definition succeeds (s : State) (c : Call) : bool :=
  match outcome s c with
  | None => true
  | Some _ => false
  end.

(** The storage after a transaction: a reverted one leaves it as it was. *)
Definition exec (s : State) (c : Call) : State :=
  match body c s with
  | (inr _, s') => s'
  | (inl _, _) => s
  end.

Definition run (s : State) (cs : list Call) : State := fold_left exec cs s.

End Contract.

(** ** Closed forms of the storage a successful transaction leaves

    Each is proved below to be what the function body computes. *)

Definition versionKey (ver : string) : Z :=
  bytes32ToUint (keccak256 (abi_encodePacked ver)).

Definition submitted (n v d : euint32) (t : Z) (s : State) : State :=
  let newId := packageCount s + 1 in
  set_events (events s ++ [PackageSubmitted newId t])
    (set_decryptedPackages
       (<[newId := {| name := ""; version := ""; description := "";
                      isRevealed := false |}]> (decryptedPackages s))
       (set_encryptedPackages
          (<[newId := {| id_ := newId; encryptedName := n;
                         encryptedVersion := v; encryptedDescription := d;
                         timestamp := t |}]> (encryptedPackages s))
          (set_packageCount newId s))).

Definition requested (packageId : Z) (s : State) : State :=
  set_events (events s ++ [DecryptionRequested packageId])
    (set_requestToPackageId
       (<[counterRequest s := packageId]> (requestToPackageId s))
       (set_counterRequest (counterRequest s + 1) s)).

Definition count_requested (ver : string) (s : State) : State :=
  set_requestToPackageId
    (<[counterRequest s := versionKey ver]> (requestToPackageId s))
    (set_counterRequest (counterRequest s + 1) s).

Definition commit (packageId : Z) (r0 r1 r2 : string) (s : State) : State :=
  let h := encryptedVersionCount s !!! r1 in
  let fresh := negb (FHE.isInitialized h) in
  let h0 := if fresh then FHE.asEuint32 0 else h in
  set_events (events s ++ [PackageDecrypted packageId])
    (set_encryptedVersionCount
       (<[r1 := FHE.add h0 (FHE.asEuint32 1)]> (encryptedVersionCount s))
       (set_versionList (if fresh then versionList s ++ [r1] else versionList s)
          (set_decryptedPackages
             (<[packageId := {| name := r0; version := r1; description := r2;
                                isRevealed := true |}]> (decryptedPackages s))
             s))).

(** ** Observations used in the statements *)

Definition revealed (s : State) (packageId : Z) : bool :=
  isRevealed (decryptedPackages s !!! packageId).

Definition subject (s : State) (requestId : Z) : Z :=
  default 0 (requestToPackageId s !! requestId).

Definition counter (s : State) (ver : string) : euint32 :=
  encryptedVersionCount s !!! ver.

(** The version string a callback payload decodes to ([results[1]]). *)
Definition decoded_version (env : Env) (cleartexts : bytes) : option string :=
  match abi_decode_strings env cleartexts with
  | Some results => results !! 1%nat
  | None => None
  end.

(** [c], run in [s], is a successful record reveal whose version is [ver]. *)
Definition reveals_version (env : Env) (ver : string) (s : State) (c : Call) : bool :=
  match c with
  | DecryptPackage _ cleartexts _ =>
      succeeds env s c && bool_decide (decoded_version env cleartexts = Some ver)
  | _ => false
  end.

(** Number of successful record reveals with version [ver] along a trace. *)
Fixpoint reveals (env : Env) (ver : string) (s : State) (cs : list Call) : Z :=
  match cs with
  | [] => 0
  | c :: rest =>
      (if reveals_version env ver s c then 1 else 0)
      + reveals env ver (exec env s c) rest
  end.

(** [c], run in [s], is a successful record reveal for record [packageId]. *)
Definition commits (env : Env) (packageId : Z) (s : State) (c : Call) : bool :=
  match c with
  | DecryptPackage requestId _ _ =>
      succeeds env s c && bool_decide (subject s requestId = packageId)
  | _ => false
  end.

Fixpoint committed (env : Env) (packageId : Z) (s : State) (cs : list Call) : bool :=
  match cs with
  | [] => false
  | c :: rest => commits env packageId s c || committed env packageId (exec env s c) rest
  end.

(** The ids announced by [PackageSubmitted], oldest first. *)
Definition submitted_ids (evs : list Event) : list Z :=
  omap (fun e => match e with PackageSubmitted i _ => Some i | _ => None end) evs.

(** What the counter for a value holds after [n] further bumps. *)
Definition bumped (h : euint32) (n : Z) : euint32 :=
  if n =? 0 then h else FHE.Encrypted ((FHE.cleartext h + n) mod 2 ^ 32).

(** ** One transaction as a relation

    [step env s c s'] lists, case by case, the storage [s'] that transaction
    [c] can leave when run in [s]. *)
Inductive step (env : Env) (s : State) : Call -> State -> Prop :=
| step_reverted c :
    succeeds env s c = false ->
    step env s c s
| step_submitted n v d t :
    packageCount s + 1 <= MAX_UINT256 ->
    step env s (SubmitEncryptedPackage n v d t) (submitted n v d t s)
| step_requested packageId :
    revealed s packageId = false ->
    counterRequest s + 1 <= MAX_UINT256 ->
    step env s (RequestPackageDecryption packageId) (requested packageId s)
| step_count_requested ver :
    FHE.isInitialized (counter s ver) = true ->
    counterRequest s + 1 <= MAX_UINT256 ->
    step env s (RequestVersionCountDecryption ver) (count_requested ver s)
| step_committed r ct pf results r0 r1 r2 :
    subject s r ≠ 0 ->
    revealed s (subject s r) = false ->
    verifySignatures env r ct pf = true ->
    abi_decode_strings env ct = Some results ->
    results !! 0%nat = Some r0 ->
    results !! 1%nat = Some r1 ->
    results !! 2%nat = Some r2 ->
    step env s (DecryptPackage r ct pf) (commit (subject s r) r0 r1 r2 s)
| step_count_revealed r ct pf :
    succeeds env s (DecryptVersionCount r ct pf) = true ->
    step env s (DecryptVersionCount r ct pf) s.

(** The record ids [1 .. n], in order. *)
Definition ids_upto (n : Z) : list Z :=
  map (fun k => Z.of_nat k) (seq 1 (Z.to_nat n)).

(** What holds of the storage in every state the contract can reach. *)
Record invariant (s : State) : Prop := {
  inv_packageCount : 0 <= packageCount s;
  inv_counterRequest : 0 <= counterRequest s;
  inv_requests :
    forall r, is_Some (requestToPackageId s !! r) -> 0 <= r < counterRequest s;
  inv_versions :
    forall v, FHE.isInitialized (counter s v) = true <-> v ∈ versionList s;
  inv_ids : submitted_ids (events s) = ids_upto (packageCount s)
}.

(** ** Further observations

    The numbers a request can be registered under: an id that a record
    request announced, or the key of a listed version. *)
Definition asked_for (s : State) (p : Z) : Prop :=
  DecryptionRequested p ∈ events s \/ exists v, v ∈ versionList s /\ versionKey v = p.

(** The checks of [decryptPackage] as a decision list, in the order in which
    the body makes them. *)
Definition decryptPackage_verdict (env : Env) (s : State)
    (requestId : Z) (cleartexts proof : bytes) : option Error :=
  if subject s requestId =? 0 then Some (RequireFailed "Invalid request")
  else if revealed s (subject s requestId) then Some (RequireFailed "Already decrypted")
  else if negb (verifySignatures env requestId cleartexts proof) then Some InvalidProof
  else match abi_decode_strings env cleartexts with
       | None => Some MalformedPayload
       | Some results =>
           if (length results <? 3)%nat then Some (Panic 0x32) else None
       end.

(** The checks of [decryptVersionCount], likewise. *)
Definition decryptVersionCount_verdict (env : Env) (s : State)
    (requestId : Z) (cleartexts proof : bytes) : option Error :=
  match scanVersions (subject s requestId) (versionList s) with
  | None => Some (RequireFailed "Version not found")
  | Some _ =>
      if negb (verifySignatures env requestId cleartexts proof) then Some InvalidProof
      else match abi_decode_uint32 env cleartexts with
           | None => Some MalformedPayload
           | Some _ => None
           end
  end.

(** ** A test double for the oracle side

    Used for the concrete scenarios only: the proof that verifies is the
    payload reversed, a record payload is three strings separated by a zero
    byte, and a counter payload is a 32 byte big-endian word below 2^32. *)
Module Scenario.

Fixpoint split_nul (cur : list Byte.byte) (bs : list Byte.byte) : list string :=
  match bs with
  | [] => [string_of_list_byte (rev cur)]
  | b :: rest =>
      if Byte.eqb b Byte.x00
      then string_of_list_byte (rev cur) :: split_nul [] rest
      else split_nul (b :: cur) rest
  end.

Definition decode_uint32 (bs : bytes) : option Z :=
  let v := Keccak.be_to_Z 0 (map (fun b => Z.of_N (Byte.to_N b)) bs) in
  if (length bs =? 32)%nat && (v <? 2 ^ 32) then Some v else None.

Definition env0 : Env := {|
  verifySignatures := fun _ cleartexts proof => bool_decide (proof = rev cleartexts);
  abi_decode_strings := fun cleartexts => Some (split_nul [] cleartexts);
  abi_decode_uint32 := decode_uint32
|}.

Definition record_payload (a b c : string) : bytes :=
  list_byte_of_string a ++ [Byte.x00] ++ list_byte_of_string b
    ++ [Byte.x00] ++ list_byte_of_string c.

Definition count_payload (n : Z) : bytes :=
  map (fun i => match Byte.of_N (Z.to_N (Z.land (Z.shiftr n (8 * (31 - Z.of_nat i))) 255)) with
                | Some b => b
                | None => Byte.x00
                end) (seq 0 32).

Definition h1 : euint32 := FHE.Encrypted 11.
Definition h2 : euint32 := FHE.Encrypted 22.
Definition h3 : euint32 := FHE.Encrypted 33.

Definition alpha : bytes := record_payload "alpha" "1.0" "desc".

Definition submit1 : Call := SubmitEncryptedPackage h1 h2 h3 1700000000.
Definition reveal (requestId : Z) : Call := DecryptPackage requestId alpha (rev alpha).
Definition count_reveal (requestId n : Z) : Call :=
  DecryptVersionCount requestId (count_payload n) (rev (count_payload n)).

(** The end-to-end trace of the spec: submit, request, callback. *)
Definition end_to_end : list Call :=
  [ submit1; RequestPackageDecryption 1; reveal 0 ].

(** ... then a request to reveal the count of "1.0". *)
Definition count_requested_trace : list Call :=
  end_to_end ++ [ RequestVersionCountDecryption "1.0" ].

(** A reveal requested, and answered, for id 1 before any submit. *)
Definition dangling_reveal : list Call :=
  [ RequestPackageDecryption 1; reveal 0 ].

End Scenario.

(** ** The web client

    The list computations of the React component [App]: the statistics per
    category, the search filter, the pages of the table and the order in
    which loaded records are shown.  A record has the fields of the
    TypeScript interface [DataRecord]; the strings are sequences of code
    units and the timestamp is an integer number of seconds. *)
Module Frontend.

Record DataRecord : Type := {
  id_ : string;
  encryptedData : string;
  timestamp : Z;
  owner : string;
  category : string
}.

(** The property names every object inherits from [Object.prototype].  The
    statistics below read [categoryCounts[record.category]] on a plain
    object, which finds these names although nothing stored them; the model
    of the counts is for categories outside this list. *)
Definition object_prototype_keys : list string :=
  [ "constructor"; "toString"; "toLocaleString"; "valueOf"; "hasOwnProperty";
    "isPrototypeOf"; "propertyIsEnumerable"; "__proto__"; "__defineGetter__";
    "__defineSetter__"; "__lookupGetter__"; "__lookupSetter__" ]%string.

(** [categoryCounts[record.category] = (categoryCounts[record.category] || 0) + 1] *)
Definition count_category (categoryCounts : gmap string Z) (record : DataRecord)
    : gmap string Z :=
  <[category record := default 0 (categoryCounts !! category record) + 1]>
    categoryCounts.

(** The effect that computes [stats] from [records]. *)
Definition categoryCounts (records : list DataRecord) : gmap string Z :=
  fold_left count_category records ∅.

Definition totalRecords (records : list DataRecord) : Z :=
  Z.of_nat (length records).

(** [s.includes(sub)]: [sub] occurs in [s] as a contiguous run. *)
Fixpoint includes (s sub : string) : bool :=
  String.prefix sub s ||
  match s with
  | EmptyString => false
  | String _ rest => includes rest sub
  end.

Section Filter.

(** [String.prototype.toLowerCase] is taken as given. *)
Context (toLowerCase : string -> string).

Definition matches (searchTerm : string) (record : DataRecord) : bool :=
  includes (toLowerCase (category record)) (toLowerCase searchTerm)
  || includes (toLowerCase (owner record)) (toLowerCase searchTerm).

Definition filteredRecords (records : list DataRecord) (searchTerm : string)
    : list DataRecord :=
  List.filter (matches searchTerm) records.

End Filter.

(** [Array.prototype.slice(start, end)] with integer arguments: a negative
    index counts from the end, and both are clamped to the array. *)
Definition slice {A : Type} (l : list A) (start end_ : Z) : list A :=
  let len := Z.of_nat (length l) in
  let k := if start <? 0 then Z.max (len + start) 0 else Z.min start len in
  let final := if end_ <? 0 then Z.max (len + end_) 0 else Z.min end_ len in
  take (Z.to_nat (final - k)) (drop (Z.to_nat k) l).

Definition itemsPerPage : Z := 5.

Definition currentRecords {A : Type} (filteredRecords : list A) (currentPage : Z)
    : list A :=
  let indexOfLastItem := currentPage * itemsPerPage in
  let indexOfFirstItem := indexOfLastItem - itemsPerPage in
  slice filteredRecords indexOfFirstItem indexOfLastItem.

(** [Math.ceil(filteredRecords.length / itemsPerPage)] *)
Definition totalPages {A : Type} (filteredRecords : list A) : Z :=
  - ((- Z.of_nat (length filteredRecords)) / itemsPerPage).

(** The page numbers [1 .. totalPages]. *)
Definition pageNumbers {A : Type} (filteredRecords : list A) : list Z :=
  map (fun i => Z.of_nat i) (seq 1 (Z.to_nat (totalPages filteredRecords))).

(** [list.sort((a, b) => b.timestamp - a.timestamp)].  The sort of an array
    is stable, and with this comparator, consistent on integer timestamps,
    its result is determined: the records by falling timestamp, records with
    equal timestamps in their order in the array.  It is written here as an
    insertion from the right. *)
Definition compareFn (a b : DataRecord) : Z := timestamp b - timestamp a.

Fixpoint insert_sorted (x : DataRecord) (l : list DataRecord) : list DataRecord :=
  match l with
  | [] => [x]
  | y :: rest =>
      if compareFn x y <=? 0 then x :: y :: rest else y :: insert_sorted x rest
  end.

Fixpoint sort (l : list DataRecord) : list DataRecord :=
  match l with
  | [] => []
  | x :: rest => insert_sorted x (sort rest)
  end.

(** [a] may stand before [b] in the list shown. *)
Definition newer_first (a b : DataRecord) : Prop := timestamp b <= timestamp a.

(** A few records for the scenarios. *)
Definition rec1 : DataRecord :=
  {| id_ := "a"; encryptedData := "FHE-x"; timestamp := 100;
     owner := "0xAbC"; category := "Medical" |}.
Definition rec2 : DataRecord :=
  {| id_ := "b"; encryptedData := "FHE-y"; timestamp := 300;
     owner := "0xdef"; category := "Financial" |}.
Definition rec3 : DataRecord :=
  {| id_ := "c"; encryptedData := "FHE-z"; timestamp := 100;
     owner := "0xAbC"; category := "Medical" |}.

End Frontend.

(** * Properties *)

Example keccak256_empty :
  bytes32ToUint (keccak256 []) =
  0xc5d2460186f7233c927e7db2dcc703c0e500b653ca82273b7bfad8045d85a470.
Proof. vm_compute. reflexivity. Qed.

Example versionKey_abc :
  versionKey "abc" =
  0x4e03657aea45a94fc7d47ba826c8d667c0d1e6e33a64a036ec44f58fa12d6c45.
Proof. vm_compute. reflexivity. Qed.

Example end_to_end_read :
  getDecryptedPackage 1 (run Scenario.env0 initial Scenario.end_to_end)
  = (inr ("alpha", "1.0", "desc", true), run Scenario.env0 initial Scenario.end_to_end).
Proof. vm_compute. reflexivity. Qed.

Example end_to_end_counter :
  counter (run Scenario.env0 initial Scenario.end_to_end) "1.0" = FHE.Encrypted 1.
Proof. vm_compute. reflexivity. Qed.

(** A callback for a request id that was never issued. *)
Example unknown_request :
  outcome Scenario.env0 (run Scenario.env0 initial Scenario.end_to_end)
    (Scenario.reveal 999)
  = Some (RequireFailed "Invalid request").
Proof. vm_compute. reflexivity. Qed.

(** A slot that was never written reads as the zero value. *)
Example unwritten_record :
  getDecryptedPackage 9 initial
  = (inr (""%string, ""%string, ""%string, false), initial).
Proof. vm_compute. reflexivity. Qed.

(** ** Symbolic execution of the bodies *)

Ltac unfold_M :=
  cbv [mbind M_bind mret M_ret get modify require throw emit checked_add index
       abi_decode FHE_checkSignatures update_dPkg FHE_requestDecryption
       FHE_toBytes32 getVersionFromHash].

Ltac proj :=
  cbn [packageCount encryptedPackages decryptedPackages encryptedVersionCount
       versionList requestToPackageId counterRequest events
       set_packageCount set_encryptedPackages set_decryptedPackages
       set_encryptedVersionCount set_versionList set_requestToPackageId
       set_counterRequest set_events].

Lemma submitEncryptedPackage_ok n v d t s :
  packageCount s + 1 <= MAX_UINT256 ->
  submitEncryptedPackage n v d t s = (inr tt, submitted n v d t s).
Proof.
  intros H. unfold submitEncryptedPackage. unfold_M.
  destruct (Z.leb_spec (packageCount s + 1) MAX_UINT256); [|lia].
  reflexivity.
Qed.

Lemma submitEncryptedPackage_overflow n v d t s :
  MAX_UINT256 < packageCount s + 1 ->
  submitEncryptedPackage n v d t s = (inl (Panic 0x11), s).
Proof.
  intros H. unfold submitEncryptedPackage. unfold_M.
  destruct (Z.leb_spec (packageCount s + 1) MAX_UINT256); [lia|].
  reflexivity.
Qed.

Lemma requestPackageDecryption_ok packageId s :
  revealed s packageId = false ->
  counterRequest s + 1 <= MAX_UINT256 ->
  requestPackageDecryption packageId s = (inr tt, requested packageId s).
Proof.
  unfold revealed. intros Hr H. unfold requestPackageDecryption. unfold_M.
  rewrite Hr. cbn [negb].
  destruct (Z.leb_spec (counterRequest s + 1) MAX_UINT256); [|lia].
  reflexivity.
Qed.

Lemma requestPackageDecryption_revealed packageId s :
  revealed s packageId = true ->
  requestPackageDecryption packageId s
  = (inl (RequireFailed "Already decrypted"), s).
Proof.
  unfold revealed. intros Hr. unfold requestPackageDecryption. unfold_M.
  rewrite Hr. reflexivity.
Qed.

Lemma requestPackageDecryption_overflow packageId s :
  revealed s packageId = false ->
  MAX_UINT256 < counterRequest s + 1 ->
  requestPackageDecryption packageId s = (inl (Panic 0x11), s).
Proof.
  unfold revealed. intros Hr H. unfold requestPackageDecryption. unfold_M.
  rewrite Hr. cbn [negb].
  destruct (Z.leb_spec (counterRequest s + 1) MAX_UINT256); [lia|].
  reflexivity.
Qed.

Lemma requestVersionCountDecryption_ok ver s :
  FHE.isInitialized (counter s ver) = true ->
  counterRequest s + 1 <= MAX_UINT256 ->
  requestVersionCountDecryption ver s = (inr tt, count_requested ver s).
Proof.
  unfold counter. intros Hi H. unfold requestVersionCountDecryption. unfold_M.
  rewrite Hi.
  destruct (Z.leb_spec (counterRequest s + 1) MAX_UINT256); [|lia].
  reflexivity.
Qed.

Lemma requestVersionCountDecryption_unknown ver s :
  FHE.isInitialized (counter s ver) = false ->
  requestVersionCountDecryption ver s
  = (inl (RequireFailed "Version not found"), s).
Proof.
  unfold counter. intros Hi. unfold requestVersionCountDecryption. unfold_M.
  rewrite Hi. reflexivity.
Qed.

Lemma requestVersionCountDecryption_overflow ver s :
  FHE.isInitialized (counter s ver) = true ->
  MAX_UINT256 < counterRequest s + 1 ->
  requestVersionCountDecryption ver s = (inl (Panic 0x11), s).
Proof.
  unfold counter. intros Hi H. unfold requestVersionCountDecryption. unfold_M.
  rewrite Hi.
  destruct (Z.leb_spec (counterRequest s + 1) MAX_UINT256); [lia|].
  reflexivity.
Qed.

Lemma decryptPackage_ok env r ct pf s results r0 r1 r2 :
  subject s r ≠ 0 ->
  revealed s (subject s r) = false ->
  verifySignatures env r ct pf = true ->
  abi_decode_strings env ct = Some results ->
  results !! 0%nat = Some r0 ->
  results !! 1%nat = Some r1 ->
  results !! 2%nat = Some r2 ->
  decryptPackage env r ct pf s = (inr tt, commit (subject s r) r0 r1 r2 s).
Proof.
  unfold revealed, subject. intros Hp Hr Hv Hd H0 H1 H2.
  unfold decryptPackage. unfold_M.
  destruct (Z.eqb_spec (default 0 (requestToPackageId s !! r)) 0); [done|]. cbn [negb].
  rewrite Hr. cbn [negb]. rewrite Hv, Hd, H0, H1, H2. proj.
  rewrite !lookup_total_insert_eq. cbn [name version description isRevealed].
  rewrite !insert_insert_eq.
  unfold commit.
  destruct (FHE.isInitialized (encryptedVersionCount s !!! r1)) eqn:Hi;
    cbn [negb]; proj.
  - reflexivity.
  - rewrite lookup_total_insert_eq, insert_insert_eq. reflexivity.
Qed.

(** Every way [decryptPackage] can fail, in the order of the checks; the
    storage at the point of failure is reported as well. *)
Lemma decryptPackage_fails env r ct pf s e s' :
  decryptPackage env r ct pf s = (inl e, s') ->
  (subject s r = 0 /\ e = RequireFailed "Invalid request" /\ s' = s) \/
  (subject s r ≠ 0 /\ revealed s (subject s r) = true
     /\ e = RequireFailed "Already decrypted" /\ s' = s) \/
  (subject s r ≠ 0 /\ revealed s (subject s r) = false
     /\ verifySignatures env r ct pf = false /\ e = InvalidProof /\ s' = s) \/
  (subject s r ≠ 0 /\ revealed s (subject s r) = false
     /\ verifySignatures env r ct pf = true
     /\ abi_decode_strings env ct = None /\ e = MalformedPayload /\ s' = s) \/
  (subject s r ≠ 0 /\ revealed s (subject s r) = false
     /\ verifySignatures env r ct pf = true
     /\ (exists results, abi_decode_strings env ct = Some results
                         /\ (length results < 3)%nat)
     /\ e = Panic 0x32).
Proof.
  unfold revealed, subject, decryptPackage. unfold_M.
  destruct (Z.eqb_spec (default 0 (requestToPackageId s !! r)) 0) as [Hz|Hz]; cbn [negb].
  { intros [= <- <-]. left. done. }
  destruct (isRevealed _) eqn:Hr; cbn [negb].
  { intros [= <- <-]. right. left. done. }
  destruct (verifySignatures env r ct pf) eqn:Hv.
  2:{ intros [= <- <-]. right. right. left. done. }
  destruct (abi_decode_strings env ct) as [results|] eqn:Hd.
  2:{ intros [= <- <-]. right. right. right. left. done. }
  intros H. right. right. right. right.
  do 3 (split; [done|]).
  destruct results as [|r0 [|r1 [|r2 rest]]]; cbn in H.
  - injection H as <- <-. split; [|done]. eexists; split; [done|]. cbn; lia.
  - injection H as <- <-. split; [|done]. eexists; split; [done|]. cbn; lia.
  - injection H as <- <-. split; [|done]. eexists; split; [done|]. cbn; lia.
  - exfalso. revert H. proj.
    destruct (negb _); discriminate.
Qed.

Lemma decryptPackage_succeeds env r ct pf s s' :
  decryptPackage env r ct pf s = (inr tt, s') ->
  exists results r0 r1 r2,
    subject s r ≠ 0 /\
    revealed s (subject s r) = false /\
    verifySignatures env r ct pf = true /\
    abi_decode_strings env ct = Some results /\
    results !! 0%nat = Some r0 /\
    results !! 1%nat = Some r1 /\
    results !! 2%nat = Some r2 /\
    s' = commit (subject s r) r0 r1 r2 s.
Proof.
  intros H.
  destruct (Z.eq_dec (subject s r) 0) as [Hz|Hz].
  { revert H. unfold subject in Hz. unfold decryptPackage. unfold_M.
    rewrite Hz. discriminate. }
  destruct (revealed s (subject s r)) eqn:Hr.
  { revert H. unfold subject, revealed in *. unfold decryptPackage. unfold_M.
    destruct (Z.eqb_spec (default 0 (requestToPackageId s !! r)) 0); [done|]. cbn [negb].
    rewrite Hr. discriminate. }
  destruct (verifySignatures env r ct pf) eqn:Hv.
  2:{ revert H. unfold subject, revealed in *. unfold decryptPackage. unfold_M.
    destruct (Z.eqb_spec (default 0 (requestToPackageId s !! r)) 0); [done|]. cbn [negb].
    rewrite Hr, Hv. discriminate. }
  destruct (abi_decode_strings env ct) as [results|] eqn:Hd.
  2:{ revert H. unfold subject, revealed in *. unfold decryptPackage. unfold_M.
    destruct (Z.eqb_spec (default 0 (requestToPackageId s !! r)) 0); [done|]. cbn [negb].
    rewrite Hr, Hv, Hd. discriminate. }
  destruct results as [|r0 [|r1 [|r2 rest]]].
  1-3: revert H; unfold subject, revealed in *; unfold decryptPackage; unfold_M;
    destruct (Z.eqb_spec (default 0 (requestToPackageId s !! r)) 0); [done|]; cbn [negb];
    rewrite Hr, Hv, Hd; discriminate.
  exists (r0 :: r1 :: r2 :: rest), r0, r1, r2.
  rewrite (decryptPackage_ok env r ct pf s _ r0 r1 r2 Hz Hr Hv Hd) in H by done.
  injection H as <-. done.
Qed.

(** [decryptVersionCount] writes nothing, whatever its result. *)
Lemma decryptVersionCount_state env r ct pf s :
  snd (decryptVersionCount env r ct pf s) = s.
Proof.
  unfold decryptVersionCount. unfold_M.
  destruct (scanVersions _ _); [|done].
  destruct (verifySignatures env r ct pf); [|done].
  destruct (abi_decode_uint32 env ct); done.
Qed.

Lemma decryptVersionCount_ok env r ct pf s ver n :
  scanVersions (subject s r) (versionList s) = Some ver ->
  verifySignatures env r ct pf = true ->
  abi_decode_uint32 env ct = Some n ->
  decryptVersionCount env r ct pf s = (inr tt, s).
Proof.
  unfold subject. intros Hs Hv Hd. unfold decryptVersionCount. unfold_M.
  rewrite Hs, Hv, Hd. reflexivity.
Qed.

(** ** Transactions *)

Lemma exec_reverted env s c : succeeds env s c = false -> exec env s c = s.
Proof.
  unfold succeeds, outcome, exec.
  destruct (body env c s) as [[e|[]] s']; [done|discriminate].
Qed.

Lemma outcome_reverted env s c e : outcome env s c = Some e -> exec env s c = s.
Proof.
  intros H. apply exec_reverted. unfold succeeds. by rewrite H.
Qed.

Lemma body_ok env s c s' :
  body env c s = (inr tt, s') -> succeeds env s c = true /\ exec env s c = s'.
Proof. unfold succeeds, outcome, exec. by intros ->. Qed.

Lemma body_failed env s c e s' :
  body env c s = (inl e, s') ->
  outcome env s c = Some e /\ succeeds env s c = false /\ exec env s c = s.
Proof. unfold succeeds, outcome, exec. by intros ->. Qed.

Lemma exec_decryptPackage env s r ct pf :
  succeeds env s (DecryptPackage r ct pf) = true ->
  exists results r0 r1 r2,
    subject s r ≠ 0 /\
    revealed s (subject s r) = false /\
    verifySignatures env r ct pf = true /\
    abi_decode_strings env ct = Some results /\
    results !! 0%nat = Some r0 /\
    results !! 1%nat = Some r1 /\
    results !! 2%nat = Some r2 /\
    exec env s (DecryptPackage r ct pf) = commit (subject s r) r0 r1 r2 s.
Proof.
  unfold succeeds, outcome, exec. cbn [body].
  destruct (decryptPackage env r ct pf s) as [[e|[]] s'] eqn:H; [discriminate|].
  intros _. apply decryptPackage_succeeds in H.
  destruct H as (results & r0 & r1 & r2 & H). exists results, r0, r1, r2.
  naive_solver.
Qed.

Lemma exec_decryptVersionCount env s r ct pf :
  exec env s (DecryptVersionCount r ct pf) = s.
Proof.
  unfold exec. cbn [body].
  pose proof (decryptVersionCount_state env r ct pf s) as H.
  destruct (decryptVersionCount env r ct pf s) as [[e|[]] s']; [done|].
  exact H.
Qed.

Lemma exec_step env s c : step env s c (exec env s c).
Proof.
  destruct (succeeds env s c) eqn:Hs.
  2:{ rewrite (exec_reverted _ _ _ Hs). by constructor. }
  destruct c as [n v d t|packageId|r ct pf|ver|r ct pf].
  - destruct (Z_le_gt_dec (packageCount s + 1) MAX_UINT256) as [H|H].
    + destruct (body_ok env s (SubmitEncryptedPackage n v d t) _
                  (submitEncryptedPackage_ok n v d t s H)) as [_ ->].
      by constructor.
    + destruct (body_failed env s (SubmitEncryptedPackage n v d t) _ _
                  (submitEncryptedPackage_overflow n v d t s ltac:(lia)))
        as (_ & E & _). congruence.
  - destruct (revealed s packageId) eqn:Hr.
    { destruct (body_failed env s (RequestPackageDecryption packageId) _ _
                  (requestPackageDecryption_revealed packageId s Hr))
        as (_ & E & _). congruence. }
    destruct (Z_le_gt_dec (counterRequest s + 1) MAX_UINT256) as [H|H].
    + destruct (body_ok env s (RequestPackageDecryption packageId) _
                  (requestPackageDecryption_ok packageId s Hr H)) as [_ ->].
      by constructor.
    + destruct (body_failed env s (RequestPackageDecryption packageId) _ _
                  (requestPackageDecryption_overflow packageId s Hr ltac:(lia)))
        as (_ & E & _). congruence.
  - destruct (exec_decryptPackage env s r ct pf Hs)
      as (results & r0 & r1 & r2 & ? & ? & ? & ? & ? & ? & ? & ->).
    by econstructor.
  - destruct (FHE.isInitialized (counter s ver)) eqn:Hi.
    2:{ destruct (body_failed env s (RequestVersionCountDecryption ver) _ _
                  (requestVersionCountDecryption_unknown ver s Hi))
        as (_ & E & _). congruence. }
    destruct (Z_le_gt_dec (counterRequest s + 1) MAX_UINT256) as [H|H].
    + destruct (body_ok env s (RequestVersionCountDecryption ver) _
                  (requestVersionCountDecryption_ok ver s Hi H)) as [_ ->].
      by constructor.
    + destruct (body_failed env s (RequestVersionCountDecryption ver) _ _
                  (requestVersionCountDecryption_overflow ver s Hi ltac:(lia)))
        as (_ & E & _). congruence.
  - rewrite exec_decryptVersionCount. by constructor.
Qed.

Lemma run_nil env s : run env s [] = s.
Proof. reflexivity. Qed.

Lemma run_cons env s c cs : run env s (c :: cs) = run env (exec env s c) cs.
Proof. reflexivity. Qed.

Lemma run_app env s cs1 cs2 :
  run env s (cs1 ++ cs2) = run env (run env s cs1) cs2.
Proof. unfold run. apply fold_left_app. Qed.

(** A property kept by every transaction is kept along every trace. *)
Lemma run_preserves env (P : State -> Prop) :
  (forall s c s', P s -> step env s c s' -> P s') ->
  forall cs s, P s -> P (run env s cs).
Proof.
  intros Hstep cs. induction cs as [|c cs IH]; intros s Hs; [done|].
  rewrite run_cons. apply IH. eapply Hstep; [exact Hs|apply exec_step].
Qed.

(** ** Invariants *)

Lemma ids_upto_succ n : 0 <= n -> ids_upto (n + 1) = ids_upto n ++ [n + 1].
Proof.
  intros Hn. unfold ids_upto.
  replace (Z.to_nat (n + 1)) with (Z.to_nat n + 1)%nat by lia.
  rewrite seq_app, map_app. cbn [seq map]. f_equal. f_equal. lia.
Qed.

Lemma submitted_ids_app evs1 evs2 :
  submitted_ids (evs1 ++ evs2) = submitted_ids evs1 ++ submitted_ids evs2.
Proof. unfold submitted_ids. apply omap_app. Qed.

Lemma invariant_initial : invariant initial.
Proof.
  split; cbn; try lia.
  - intros r [x Hx]. by rewrite lookup_empty in Hx.
  - intros v. unfold counter. cbn. rewrite lookup_total_empty. cbn.
    split; [done|]. intros H. by apply elem_of_nil in H.
  - reflexivity.
Qed.

Lemma invariant_step env s c s' : invariant s -> step env s c s' -> invariant s'.
Proof.
  intros [Hpc Hcr Hreq Hver Hids] Hstep.
  destruct Hstep as [c _|n v d t Hle|packageId Hr Hle|ver Hi Hle
                     |r ct pf results r0 r1 r2 Hz Hr Hv Hd H0 H1 H2|r ct pf _].
  - by split.
  - split; unfold submitted, counter in *; proj; try lia; try done.
    rewrite submitted_ids_app, Hids, ids_upto_succ by lia. reflexivity.
  - split; unfold requested, counter in *; proj; try lia; try done.
    + intros r [x Hx]. destruct (decide (counterRequest s = r)) as [<-|Hne].
      * lia.
      * rewrite lookup_insert_ne in Hx by done.
        specialize (Hreq r (ex_intro _ x Hx)). lia.
    + rewrite submitted_ids_app, Hids. cbn. by rewrite app_nil_r.
  - split; unfold count_requested, counter in *; proj; try lia; try done.
    intros r [x Hx]. destruct (decide (counterRequest s = r)) as [<-|Hne].
    + lia.
    + rewrite lookup_insert_ne in Hx by done.
      specialize (Hreq r (ex_intro _ x Hx)). lia.
  - split; unfold commit, counter in *; proj; try lia; try done.
    + intros v. destruct (decide (r1 = v)) as [<-|Hne].
      * rewrite lookup_total_insert_eq. cbn. split; [intros _|done].
        destruct (FHE.isInitialized (encryptedVersionCount s !!! r1)) eqn:Hi;
          cbn [negb].
        -- by apply Hver.
        -- apply elem_of_app. right. by apply list_elem_of_singleton.
      * rewrite lookup_total_insert_ne by done. rewrite Hver.
        destruct (negb _); [|done].
        rewrite elem_of_app, list_elem_of_singleton.
        split; [by left|]. intros [?|?]; [done|]. by subst.
    + rewrite submitted_ids_app, Hids. cbn. by rewrite app_nil_r.
  - by split.
Qed.

Lemma invariant_run env cs s : invariant s -> invariant (run env s cs).
Proof. apply run_preserves. intros ? ? ? ?. by apply invariant_step. Qed.

Lemma invariant_reachable env cs : invariant (run env initial cs).
Proof. apply invariant_run, invariant_initial. Qed.

(** The two counters never decrease. *)
Lemma packageCount_step env s c s' :
  step env s c s' -> packageCount s <= packageCount s'.
Proof. intros []; unfold submitted, requested, count_requested, commit; proj; lia. Qed.

Lemma counterRequest_step env s c s' :
  step env s c s' -> counterRequest s <= counterRequest s'.
Proof. intros []; unfold submitted, requested, count_requested, commit; proj; lia. Qed.

Lemma packageCount_run env cs s : packageCount s <= packageCount (run env s cs).
Proof.
  revert s. induction cs as [|c cs IH]; intros s; [cbn; lia|].
  rewrite run_cons. pose proof (packageCount_step env s c _ (exec_step env s c)).
  specialize (IH (exec env s c)). lia.
Qed.

Lemma counterRequest_run env cs s : counterRequest s <= counterRequest (run env s cs).
Proof.
  revert s. induction cs as [|c cs IH]; intros s; [cbn; lia|].
  rewrite run_cons. pose proof (counterRequest_step env s c _ (exec_step env s c)).
  specialize (IH (exec env s c)). lia.
Qed.

(** ** The callback: proof check before any write *)

(** C2.  Proof-failure atomicity.  When [FHE.checkSignatures] rejects the
    proof of a callback for a pending request, the callback stops with
    [InvalidProof] and the storage at that point is the storage on entry:
    nothing at all was written before the check (no field of a revealed
    record, no [isRevealed] flag, no counter, no request mapping, no event),
    so the transaction leaves the state as it was.  This holds for the record
    callback [decryptPackage] and for the counter callback
    [decryptVersionCount], for every payload. *)
Theorem proof_failure_leaves_state_untouched
    env s requestId cleartexts proof :
  verifySignatures env requestId cleartexts proof = false ->
  (subject s requestId ≠ 0 ->
   revealed s (subject s requestId) = false ->
   decryptPackage env requestId cleartexts proof s = (inl InvalidProof, s)) /\
  (forall ver,
   scanVersions (subject s requestId) (versionList s) = Some ver ->
   decryptVersionCount env requestId cleartexts proof s = (inl InvalidProof, s)) /\
  (exists e, decryptPackage env requestId cleartexts proof s = (inl e, s)) /\
  (exists e, decryptVersionCount env requestId cleartexts proof s = (inl e, s)) /\
  exec env s (DecryptPackage requestId cleartexts proof) = s /\
  exec env s (DecryptVersionCount requestId cleartexts proof) = s.
Proof.
  intros Hv.
  assert (Hrec : exists e, decryptPackage env requestId cleartexts proof s = (inl e, s)).
  { unfold decryptPackage. unfold_M.
    destruct (negb (default 0 (requestToPackageId s !! requestId) =? 0)); [|by eexists].
    destruct (negb (isRevealed _)); [|by eexists].
    rewrite Hv. by eexists. }
  assert (Hcnt : exists e, decryptVersionCount env requestId cleartexts proof s = (inl e, s)).
  { unfold decryptVersionCount. unfold_M.
    destruct (scanVersions _ _); [|by eexists].
    rewrite Hv. by eexists. }
  split; [|split; [|split; [exact Hrec|split; [exact Hcnt|split]]]].
  - intros Hz Hr. unfold subject, revealed in *.
    unfold decryptPackage. unfold_M.
    destruct (Z.eqb_spec (default 0 (requestToPackageId s !! requestId)) 0); [done|].
    cbn [negb]. rewrite Hr. cbn [negb]. by rewrite Hv.
  - intros ver Hs. unfold subject in *.
    unfold decryptVersionCount. unfold_M. by rewrite Hs, Hv.
  - destruct Hrec as [e He].
    by destruct (body_failed env s (DecryptPackage requestId cleartexts proof) e s He)
      as (_ & _ & ->).
  - apply exec_decryptVersionCount.
Qed.

(** The record callback of the end-to-end trace, with a proof that does not
    verify. *)
Lemma proof_failure_witness :
  decryptPackage Scenario.env0 0 Scenario.alpha []
    (run Scenario.env0 initial [Scenario.submit1; RequestPackageDecryption 1])
  = (inl InvalidProof,
     run Scenario.env0 initial [Scenario.submit1; RequestPackageDecryption 1]).
Proof.
  apply (proof_failure_leaves_state_untouched Scenario.env0
           (run Scenario.env0 initial [Scenario.submit1; RequestPackageDecryption 1])
           0 Scenario.alpha []); vm_compute; congruence.
Defined.

(** ** The aggregate counter *)

Lemma reveals_nonneg env ver cs s : 0 <= reveals env ver s cs.
Proof.
  revert s. induction cs as [|c cs IH]; intros s; cbn [reveals]; [lia|].
  specialize (IH (exec env s c)). destruct (reveals_version env ver s c); lia.
Qed.

Lemma bumped_bumped h n m :
  0 <= n -> 0 <= m -> bumped (bumped h n) m = bumped h (n + m).
Proof.
  intros Hn Hm. unfold bumped.
  destruct (Z.eqb_spec n 0) as [->|Hn0].
  { by rewrite Z.add_0_l. }
  destruct (Z.eqb_spec m 0) as [->|Hm0].
  { rewrite Z.add_0_r. by destruct (Z.eqb_spec n 0). }
  destruct (Z.eqb_spec (n + m) 0); [lia|].
  cbn [FHE.cleartext]. f_equal.
  rewrite Zplus_mod_idemp_l. f_equal. lia.
Qed.

(** One successful reveal of version [r1] bumps the counter of [r1] by one
    and leaves every other counter alone. *)
Lemma counter_commit packageId r0 r1 r2 s ver :
  counter (commit packageId r0 r1 r2 s) ver
  = if decide (r1 = ver) then bumped (counter s ver) 1 else counter s ver.
Proof.
  unfold counter, commit. proj.
  destruct (decide (r1 = ver)) as [<-|Hne].
  - rewrite lookup_total_insert_eq. unfold bumped, FHE.add, FHE.asEuint32.
    cbn [Z.eqb]. f_equal.
    destruct (encryptedVersionCount s !!! r1) as [|v]; cbn; reflexivity.
  - by rewrite lookup_total_insert_ne.
Qed.

Lemma counter_step env s c s' ver :
  step env s c s' ->
  (forall r ct pf, c ≠ DecryptPackage r ct pf) ->
  counter s' ver = counter s ver.
Proof.
  intros Hstep Hc.
  destruct Hstep; try done.
  exfalso. by eapply Hc.
Qed.

Lemma counter_exec env s c ver :
  counter (exec env s c) ver
  = bumped (counter s ver) (if reveals_version env ver s c then 1 else 0).
Proof.
  destruct (succeeds env s c) eqn:Hs.
  2:{ rewrite (exec_reverted _ _ _ Hs).
      replace (reveals_version env ver s c) with false; [done|].
      destruct c; cbn [reveals_version]; try done. by rewrite Hs. }
  destruct c as [n v d t|packageId|r ct pf|ver'|r ct pf];
    cbn [reveals_version].
  1,2,4,5: (erewrite counter_step; [done|apply exec_step|done]).
  rewrite Hs. cbn [andb].
  destruct (exec_decryptPackage env s r ct pf Hs)
    as (results & r0 & r1 & r2 & _ & _ & _ & Hd & _ & H1 & _ & ->).
  rewrite counter_commit. unfold decoded_version. rewrite Hd, H1.
  destruct (decide (r1 = ver)) as [->|Hne].
  - by rewrite bool_decide_eq_true_2.
  - rewrite bool_decide_eq_false_2; [done|]. congruence.
Qed.

(** After a trace, the counter of [ver] has been bumped once per successful
    reveal of [ver] in the trace. *)
Lemma counter_run env ver cs s :
  counter (run env s cs) ver = bumped (counter s ver) (reveals env ver s cs).
Proof.
  revert s. induction cs as [|c cs IH]; intros s.
  - reflexivity.
  - rewrite run_cons. cbn [reveals]. rewrite IH, counter_exec.
    apply bumped_bumped.
    + destruct (reveals_version env ver s c); lia.
    + apply reveals_nonneg.
Qed.

(** C6.  Aggregate count, as the code keeps it.  After a trace from the
    initial state with [n] successful record reveals whose decrypted version
    is [ver], the counter of [ver] is the uninitialized handle when [n = 0]
    (it is created on the first reveal only), and otherwise an initialized
    handle whose value is [n] modulo [2^32] (the counter is an [euint32]); so
    it is exactly [n] for [1 <= n < 2^32]. *)
Theorem counter_after_reveals env ver cs :
  counter (run env initial cs) ver
  = (if reveals env ver initial cs =? 0
     then FHE.Uninitialized
     else FHE.Encrypted (reveals env ver initial cs mod 2 ^ 32))
  /\ (1 <= reveals env ver initial cs < 2 ^ 32 ->
      counter (run env initial cs) ver = FHE.Encrypted (reveals env ver initial cs)).
Proof.
  assert (H : counter (run env initial cs) ver
              = if reveals env ver initial cs =? 0
                then FHE.Uninitialized
                else FHE.Encrypted (reveals env ver initial cs mod 2 ^ 32)).
  { rewrite counter_run. unfold bumped.
    replace (counter initial ver) with FHE.Uninitialized
      by (unfold counter; cbn; by rewrite lookup_total_empty).
    cbn [FHE.cleartext]. by rewrite Z.add_0_l. }
  split; [exact H|].
  intros Hn. rewrite H.
  destruct (Z.eqb_spec (reveals env ver initial cs) 0); [lia|].
  f_equal. apply Z.mod_small. lia.
Qed.

Lemma counter_after_reveals_witness :
  counter (run Scenario.env0 initial Scenario.end_to_end) "1.0" = FHE.Encrypted 1.
Proof.
  apply (counter_after_reveals Scenario.env0 "1.0" Scenario.end_to_end).
  vm_compute. split; congruence.
Defined.

(** One round of submit, request and reveal with the test double: it
    succeeds in every state with room left in the two [uint256] counters, and
    counts as one reveal of version "1.0". *)
Lemma reveal_round s :
  0 <= packageCount s -> packageCount s + 1 <= MAX_UINT256 ->
  counterRequest s + 1 <= MAX_UINT256 ->
  let round := [ Scenario.submit1;
                 RequestPackageDecryption (packageCount s + 1);
                 Scenario.reveal (counterRequest s) ] in
  reveals Scenario.env0 "1.0" s round = 1 /\
  packageCount (run Scenario.env0 s round) = packageCount s + 1 /\
  counterRequest (run Scenario.env0 s round) = counterRequest s + 1.
Proof.
  intros Hpc Hpc' Hcr round. subst round.
  set (s1 := submitted Scenario.h1 Scenario.h2 Scenario.h3 1700000000 s).
  set (s2 := requested (packageCount s + 1) s1).
  destruct (body_ok Scenario.env0 s Scenario.submit1 s1
              (submitEncryptedPackage_ok _ _ _ _ s Hpc')) as [_ E1].
  assert (Hr1 : revealed s1 (packageCount s + 1) = false).
  { unfold revealed, s1, submitted. proj. by rewrite lookup_total_insert_eq. }
  destruct (body_ok Scenario.env0 s1 (RequestPackageDecryption (packageCount s + 1)) s2
              (requestPackageDecryption_ok _ s1 Hr1 Hcr)) as [_ E2].
  assert (Hsub : subject s2 (counterRequest s) = packageCount s + 1).
  { unfold subject, s2, requested, s1, submitted. proj.
    by rewrite lookup_insert_eq. }
  assert (Hr2 : revealed s2 (subject s2 (counterRequest s)) = false).
  { rewrite Hsub. exact Hr1. }
  assert (Hnz : subject s2 (counterRequest s) ≠ 0) by (rewrite Hsub; lia).
  destruct (body_ok Scenario.env0 s2 (Scenario.reveal (counterRequest s)) _
              (decryptPackage_ok Scenario.env0 (counterRequest s) Scenario.alpha
                 (rev Scenario.alpha) s2 ["alpha"; "1.0"; "desc"]%string
                 "alpha" "1.0" "desc" Hnz Hr2
                 eq_refl eq_refl eq_refl eq_refl eq_refl)) as [S3 E3].
  rewrite !run_cons, run_nil. cbn [reveals]. rewrite E1, E2, E3.
  cbn [reveals_version Scenario.submit1 Scenario.reveal].
  fold (Scenario.reveal (counterRequest s)). rewrite S3.
  split; [|split].
  - reflexivity.
  - reflexivity.
  - reflexivity.
Qed.

Lemma reveals_app env ver cs1 cs2 s :
  reveals env ver s (cs1 ++ cs2)
  = reveals env ver s cs1 + reveals env ver (run env s cs1) cs2.
Proof.
  revert s. induction cs1 as [|c cs1 IH]; intros s.
  - reflexivity.
  - cbn [app reveals]. rewrite IH, run_cons. lia.
Qed.

(** Any number of reveals of one version can be reached, as long as the two
    [uint256] counters have room for them. *)
Lemma reveals_reachable n :
  0 <= n ->
  forall s,
    0 <= packageCount s -> packageCount s + n <= MAX_UINT256 ->
    counterRequest s + n <= MAX_UINT256 ->
    exists cs, reveals Scenario.env0 "1.0" s cs = n.
Proof.
  intros Hn. pattern n. apply natlike_ind; [| |exact Hn]; clear n Hn.
  - intros s _ _ _. by exists [].
  - intros n Hn IH s Hpc Hpc' Hcr.
    destruct (reveal_round s) as (R1 & R2 & R3); [lia..|].
    set (round := [ Scenario.submit1;
                    RequestPackageDecryption (packageCount s + 1);
                    Scenario.reveal (counterRequest s) ]) in *.
    destruct (IH (run Scenario.env0 s round)) as [cs Hcs]; [lia..|].
    exists (round ++ cs). rewrite reveals_app, R1, Hcs. lia.
Qed.

(** The claim of C6 read literally fails at both ends: with no reveal of
    "1.0" the counter is not an encryption of 0 but the uninitialized handle,
    and a trace with [2^32] reveals of "1.0" leaves an encryption of 0. *)
Lemma counter_after_reveals_counterexample :
  (reveals Scenario.env0 "1.0" initial [] = 0 /\
   counter (run Scenario.env0 initial []) "1.0" ≠ FHE.Encrypted 0) /\
  (exists cs,
     reveals Scenario.env0 "1.0" initial cs = 2 ^ 32 /\
     counter (run Scenario.env0 initial cs) "1.0" ≠ FHE.Encrypted (2 ^ 32)).
Proof.
  split.
  - split; [reflexivity|]. vm_compute. discriminate.
  - destruct (reveals_reachable (2 ^ 32)) with (s := initial) as [cs Hcs].
    + lia.
    + cbn. lia.
    + cbn. unfold MAX_UINT256. lia.
    + cbn. unfold MAX_UINT256. lia.
    + exists cs. split; [exact Hcs|].
      rewrite counter_run, Hcs. unfold bumped.
      replace (counter initial "1.0") with FHE.Uninitialized
        by (unfold counter; cbn; by rewrite lookup_total_empty).
      vm_compute. discriminate.
Qed.

(** C10.  Reading a counter never fails.  [getEncryptedVersionCount] returns
    the stored handle in every state and for every version string, without
    touching the storage; for a version that no successful reveal has
    observed the handle is the uninitialized one, where the request path
    [requestVersionCountDecryption] answers "Version not found" instead. *)
Theorem getEncryptedVersionCount_never_fails env ver cs :
  reveals env ver initial cs = 0 ->
  (forall s, getEncryptedVersionCount ver s = (inr (counter s ver), s)) /\
  getEncryptedVersionCount ver (run env initial cs)
  = (inr FHE.Uninitialized, run env initial cs) /\
  requestVersionCountDecryption ver (run env initial cs)
  = (inl (RequireFailed "Version not found"), run env initial cs).
Proof.
  intros Hn.
  assert (Hc : counter (run env initial cs) ver = FHE.Uninitialized).
  { rewrite counter_run, Hn. unfold bumped, counter. cbn.
    by rewrite lookup_total_empty. }
  split; [reflexivity|]. split.
  - unfold getEncryptedVersionCount. unfold_M. unfold counter in Hc.
    by rewrite Hc.
  - apply requestVersionCountDecryption_unknown. by rewrite Hc.
Qed.

(** After the end-to-end trace, "2.0" has never been observed. *)
Lemma getEncryptedVersionCount_witness :
  getEncryptedVersionCount "2.0" (run Scenario.env0 initial Scenario.end_to_end)
  = (inr FHE.Uninitialized, run Scenario.env0 initial Scenario.end_to_end).
Proof.
  apply (getEncryptedVersionCount_never_fails Scenario.env0 "2.0" Scenario.end_to_end).
  vm_compute. reflexivity.
Defined.

(** C5.  The counter callback at work: after the end-to-end trace and a
    request for the count of "1.0", the callback that carries the count 1
    with a valid proof succeeds, and the state after it is the state before
    it, event log included: the decoded count is neither stored nor
    emitted. *)
Theorem decryptVersionCount_discards_count :
  let s := run Scenario.env0 initial Scenario.count_requested_trace in
  subject s 1 = versionKey "1.0" /\
  abi_decode_uint32 Scenario.env0 (Scenario.count_payload 1) = Some 1 /\
  decryptVersionCount Scenario.env0 1 (Scenario.count_payload 1)
    (rev (Scenario.count_payload 1)) s = (inr tt, s) /\
  exec Scenario.env0 s (Scenario.count_reveal 1 1) = s.
Proof.
  intros s. split; [|split; [|split]].
  - vm_compute. reflexivity.
  - vm_compute. reflexivity.
  - apply decryptVersionCount_ok with (ver := "1.0"%string) (n := 1).
    + vm_compute. reflexivity.
    + vm_compute. reflexivity.
    + vm_compute. reflexivity.
  - apply exec_decryptVersionCount.
Qed.

(** ** Revealed records *)

Lemma step_committed_succeeds env s r ct pf results r0 r1 r2 :
  subject s r ≠ 0 ->
  revealed s (subject s r) = false ->
  verifySignatures env r ct pf = true ->
  abi_decode_strings env ct = Some results ->
  results !! 0%nat = Some r0 ->
  results !! 1%nat = Some r1 ->
  results !! 2%nat = Some r2 ->
  succeeds env s (DecryptPackage r ct pf) = true.
Proof.
  intros Hz Hr Hv Hd H0 H1 H2.
  by destruct (body_ok env s (DecryptPackage r ct pf) _
                 (decryptPackage_ok env r ct pf s results r0 r1 r2
                    Hz Hr Hv Hd H0 H1 H2)) as [-> _].
Qed.

(** A transaction leaves the revealed record of a submitted package alone,
    unless it is a successful callback for that package. *)
Lemma record_step env s c s' packageId :
  step env s c s' ->
  packageId <= packageCount s ->
  commits env packageId s c = false ->
  decryptedPackages s' !!! packageId = decryptedPackages s !!! packageId.
Proof.
  intros Hstep Hle Hc.
  destruct Hstep as [c _|n v d t _|packageId' _ _|ver _ _
                     |r ct pf results r0 r1 r2 Hz Hr Hv Hd H0 H1 H2|r ct pf _];
    try done.
  - unfold submitted. proj. rewrite lookup_total_insert_ne; [done|lia].
  - unfold commit. proj. rewrite lookup_total_insert_ne; [done|].
    intros E. cbn [commits] in Hc.
    rewrite (step_committed_succeeds env s r ct pf results r0 r1 r2) in Hc by done.
    by rewrite bool_decide_eq_true_2 in Hc.
Qed.

Lemma record_run env packageId cs s :
  packageId <= packageCount s ->
  committed env packageId s cs = false ->
  decryptedPackages (run env s cs) !!! packageId
  = decryptedPackages s !!! packageId.
Proof.
  revert s. induction cs as [|c cs IH]; intros s Hle Hc; [done|].
  cbn [committed] in Hc. apply orb_false_elim in Hc as [Hc1 Hc2].
  rewrite run_cons, IH; [|
    pose proof (packageCount_step env s c _ (exec_step env s c)); lia | done].
  eapply record_step; [apply exec_step|done..].
Qed.

(** A revealed record of a submitted package stays revealed. *)
Lemma revealed_step env s c s' packageId :
  step env s c s' ->
  packageId <= packageCount s ->
  revealed s packageId = true ->
  revealed s' packageId = true.
Proof.
  intros Hstep Hle Hr. unfold revealed in *.
  destruct Hstep as [c _|n v d t _|packageId' _ _|ver _ _
                     |r ct pf results r0 r1 r2 Hz Hr' Hv Hd H0 H1 H2|r ct pf _];
    try done.
  - unfold submitted. proj. rewrite lookup_total_insert_ne; [done|lia].
  - unfold commit. proj.
    destruct (decide (subject s r = packageId)) as [<-|Hne].
    + by rewrite lookup_total_insert_eq.
    + by rewrite lookup_total_insert_ne.
Qed.

Lemma revealed_run env packageId cs s :
  packageId <= packageCount s ->
  revealed s packageId = true ->
  revealed (run env s cs) packageId = true.
Proof.
  revert s. induction cs as [|c cs IH]; intros s Hle Hr; [done|].
  rewrite run_cons. apply IH.
  - pose proof (packageCount_step env s c _ (exec_step env s c)). lia.
  - eapply revealed_step; [apply exec_step|done..].
Qed.

(** C8.  Read before reveal.  Take any reachable state and a submit that
    succeeds in it.  The new id is the old [packageCount] plus one, it is at
    least 1, and the ids announced so far are exactly 1, 2, .., id in order;
    id 0 is never allocated, and the callback treats a request that maps to 0
    as unknown.  As long as no successful callback commits the new record,
    [getDecryptedPackage id] returns three empty strings and
    [isRevealed = false], whatever else is called in between. *)
Theorem read_before_reveal env cs0 n v d t cs :
  let s := run env initial cs0 in
  let s1 := exec env s (SubmitEncryptedPackage n v d t) in
  let id := packageCount s1 in
  succeeds env s (SubmitEncryptedPackage n v d t) = true ->
  committed env id s1 cs = false ->
  getDecryptedPackage id (run env s1 cs)
  = (inr (""%string, ""%string, ""%string, false), run env s1 cs) /\
  id = packageCount s + 1 /\
  1 <= id /\
  submitted_ids (events s1) = ids_upto id /\
  (forall s' r ct pf,
     subject s' r = 0 ->
     outcome env s' (DecryptPackage r ct pf) = Some (RequireFailed "Invalid request")).
Proof.
  intros s s1 id Hs Hc.
  pose proof (invariant_reachable env cs0) as Hinv. fold s in Hinv.
  pose proof (invariant_step env s _ s1 Hinv (exec_step env s _)) as Hinv1.
  assert (E1 : s1 = submitted n v d t s).
  { destruct (Z_le_gt_dec (packageCount s + 1) MAX_UINT256) as [H|H].
    - by destruct (body_ok env s (SubmitEncryptedPackage n v d t) _
                     (submitEncryptedPackage_ok n v d t s H)) as [_ ?].
    - destruct (body_failed env s (SubmitEncryptedPackage n v d t) _ _
                  (submitEncryptedPackage_overflow n v d t s ltac:(lia)))
        as (_ & E & _). congruence. }
  assert (Eid : id = packageCount s + 1) by (unfold id; by rewrite E1).
  split; [|split; [done|split; [|split]]].
  - unfold getDecryptedPackage. unfold_M.
    rewrite (record_run env id cs s1) by (done || (unfold id; lia)).
    unfold id. rewrite E1. unfold submitted. proj.
    by rewrite lookup_total_insert_eq.
  - destruct Hinv. lia.
  - by destruct Hinv1.
  - intros s' r ct pf Hz. unfold outcome. cbn [body].
    unfold subject in Hz. unfold decryptPackage. unfold_M. by rewrite Hz.
Qed.

Lemma read_before_reveal_witness :
  getDecryptedPackage 1
    (run Scenario.env0 (exec Scenario.env0 initial Scenario.submit1)
       [RequestPackageDecryption 1; DecryptPackage 0 Scenario.alpha []])
  = (inr (""%string, ""%string, ""%string, false),
     run Scenario.env0 (exec Scenario.env0 initial Scenario.submit1)
       [RequestPackageDecryption 1; DecryptPackage 0 Scenario.alpha []]).
Proof.
  apply (read_before_reveal Scenario.env0 [] Scenario.h1 Scenario.h2 Scenario.h3
           1700000000 [RequestPackageDecryption 1; DecryptPackage 0 Scenario.alpha []]);
    vm_compute; reflexivity.
Defined.

(** The flag of a package can only be raised by a successful callback whose
    request resolves to that package. *)
Lemma revealed_raised env s c packageId :
  packageId <= packageCount s ->
  revealed s packageId = false ->
  revealed (exec env s c) packageId = true ->
  commits env packageId s c = true.
Proof.
  intros Hle Hf Ht. destruct (commits env packageId s c) eqn:Hc; [done|].
  unfold revealed in *.
  rewrite (record_step env s c _ packageId (exec_step env s c) Hle Hc) in Ht.
  congruence.
Qed.

(** C7.  One-way reveal flag, for submitted records.  For a record id that
    has been allocated ([packageId <= packageCount]), once [isRevealed] is
    true it stays true through every transaction and every trace, so the flag
    rises at most once; and it rises only through a successful
    [decryptPackage] whose request resolves to this record. *)
Theorem reveal_flag_one_way env s packageId :
  packageId <= packageCount s ->
  (forall c, revealed s packageId = true ->
             revealed (exec env s c) packageId = true) /\
  (forall cs, revealed s packageId = true ->
              revealed (run env s cs) packageId = true) /\
  (forall c, revealed s packageId = false ->
             revealed (exec env s c) packageId = true ->
             commits env packageId s c = true).
Proof.
  intros Hle. split; [|split].
  - intros c Hr. eapply revealed_step; [apply exec_step|done..].
  - intros cs Hr. by apply revealed_run.
  - intros c. by apply revealed_raised.
Qed.

(** After the end-to-end trace record 1 is revealed, and a further submit,
    request and callback replay do not lower the flag. *)
Lemma reveal_flag_one_way_witness :
  revealed
    (run Scenario.env0 (run Scenario.env0 initial Scenario.end_to_end)
       [Scenario.submit1; RequestPackageDecryption 1; Scenario.reveal 0])
    1 = true.
Proof.
  apply (reveal_flag_one_way Scenario.env0
           (run Scenario.env0 initial Scenario.end_to_end) 1);
    vm_compute; congruence.
Defined.

(** Read for every id, C7 fails: [requestPackageDecryption] accepts an id
    that no submit has allocated yet, the callback raises the flag of that
    id, and the submit that later allocates the id writes [false] over it. *)
Lemma reveal_flag_one_way_counterexample :
  revealed (run Scenario.env0 initial Scenario.dangling_reveal) 1 = true /\
  revealed (run Scenario.env0 initial
              (Scenario.dangling_reveal ++ [Scenario.submit1])) 1 = false /\
  revealed (run Scenario.env0 initial
              (Scenario.dangling_reveal ++ [Scenario.submit1; Scenario.reveal 0])) 1
  = true.
Proof. vm_compute. repeat split; reflexivity. Qed.

(** ** Requests *)

(** A request, once registered, keeps its subject. *)
Lemma request_step env s c s' r p :
  invariant s ->
  step env s c s' ->
  requestToPackageId s !! r = Some p ->
  requestToPackageId s' !! r = Some p.
Proof.
  intros Hinv Hstep Hr.
  pose proof (inv_requests s Hinv r (ex_intro _ p Hr)) as Hlt.
  destruct Hstep; try done.
  - unfold requested. proj. rewrite lookup_insert_ne; [done|lia].
  - unfold count_requested. proj. rewrite lookup_insert_ne; [done|lia].
Qed.

Lemma request_run env r p cs s :
  invariant s ->
  requestToPackageId s !! r = Some p ->
  requestToPackageId (run env s cs) !! r = Some p.
Proof.
  revert s. induction cs as [|c cs IH]; intros s Hinv Hr; [done|].
  rewrite run_cons. apply IH.
  - eapply invariant_step; [done|apply exec_step].
  - eapply request_step; [done|apply exec_step|done].
Qed.

Lemma subject_Some s r p : p ≠ 0 -> subject s r = p -> requestToPackageId s !! r = Some p.
Proof.
  unfold subject.
  destruct (requestToPackageId s !! r) as [q|]; cbn; [by intros _ ->|].
  intros Hp E. by rewrite E in Hp.
Qed.

Lemma Some_subject s r p : requestToPackageId s !! r = Some p -> subject s r = p.
Proof. unfold subject. by intros ->. Qed.

(** C1.  Settle-once, as the code has it.  Record reveals: after a callback
    [decryptPackage] for request [r] has succeeded in a reachable state for a
    record that had been allocated ([subject <= packageCount]), every later
    [decryptPackage] for [r], with any payload and any proof and after any
    further transactions, is rejected with "Already decrypted" and leaves the
    state as it was.  Counter reveals: [decryptVersionCount] never changes
    the state, whether it is accepted or rejected. *)
Theorem settled_request_rejected env cs0 r ct pf cs ct' pf' :
  let s := run env initial cs0 in
  let s' := run env (exec env s (DecryptPackage r ct pf)) cs in
  succeeds env s (DecryptPackage r ct pf) = true ->
  subject s r <= packageCount s ->
  (outcome env s' (DecryptPackage r ct' pf') = Some (RequireFailed "Already decrypted") /\
   exec env s' (DecryptPackage r ct' pf') = s') /\
  (forall s'' r'' ct'' pf'', exec env s'' (DecryptVersionCount r'' ct'' pf'') = s'').
Proof.
  intros s s' Hs Hle. split; [|intros; apply exec_decryptVersionCount].
  pose proof (invariant_reachable env cs0) as Hinv. fold s in Hinv.
  destruct (exec_decryptPackage env s r ct pf Hs)
    as (results & r0 & r1 & r2 & Hz & _ & _ & _ & _ & _ & _ & E).
  set (s1 := exec env s (DecryptPackage r ct pf)) in *.
  assert (Hinv1 : invariant s1).
  { eapply invariant_step; [exact Hinv|apply exec_step]. }
  assert (Hsub1 : requestToPackageId s1 !! r = Some (subject s r)).
  { rewrite E. unfold commit. proj. by apply subject_Some. }
  assert (Hrev1 : revealed s1 (subject s r) = true).
  { rewrite E. unfold revealed, commit. proj. by rewrite lookup_total_insert_eq. }
  assert (Hle1 : subject s r <= packageCount s1).
  { rewrite E. unfold commit. by proj. }
  pose proof (request_run env r _ cs s1 Hinv1 Hsub1) as Hsub.
  pose proof (revealed_run env _ cs s1 Hle1 Hrev1) as Hrev.
  fold s' in Hsub, Hrev. apply Some_subject in Hsub.
  assert (Hb : decryptPackage env r ct' pf' s'
               = (inl (RequireFailed "Already decrypted"), s')).
  { unfold revealed, subject in *. unfold decryptPackage. unfold_M.
    rewrite Hsub.
    destruct (Z.eqb_spec (default 0 (requestToPackageId s !! r)) 0); [done|]. cbn [negb].
    by rewrite Hrev. }
  by destruct (body_failed env s' (DecryptPackage r ct' pf') _ _ Hb) as (? & _ & ?).
Qed.

(** The end-to-end trace, a second submit and request, then the first
    callback again with another payload and no proof. *)
Lemma settled_request_rejected_witness :
  outcome Scenario.env0
    (run Scenario.env0
       (exec Scenario.env0
          (run Scenario.env0 initial [Scenario.submit1; RequestPackageDecryption 1])
          (DecryptPackage 0 Scenario.alpha (rev Scenario.alpha)))
       [Scenario.submit1; RequestPackageDecryption 2])
    (DecryptPackage 0 (Scenario.record_payload "beta" "2.0" "other") [])
  = Some (RequireFailed "Already decrypted").
Proof.
  apply (settled_request_rejected Scenario.env0
           [Scenario.submit1; RequestPackageDecryption 1] 0
           Scenario.alpha (rev Scenario.alpha)
           [Scenario.submit1; RequestPackageDecryption 2]
           (Scenario.record_payload "beta" "2.0" "other") []);
    vm_compute; congruence.
Defined.

(** C1 as stated fails for both kinds of callback.  A counter callback that
    succeeded succeeds again when it is replayed; and a record callback for a
    request placed before its id was allocated succeeds a second time, and
    bumps the counter again, once a submit has allocated the id. *)
Lemma settled_request_rejected_counterexample :
  (let s := run Scenario.env0 initial Scenario.count_requested_trace in
   outcome Scenario.env0 s (Scenario.count_reveal 1 1) = None /\
   outcome Scenario.env0 (exec Scenario.env0 s (Scenario.count_reveal 1 1))
     (Scenario.count_reveal 1 1) = None) /\
  (let s := run Scenario.env0 initial [RequestPackageDecryption 1] in
   let s' := run Scenario.env0 initial (Scenario.dangling_reveal ++ [Scenario.submit1]) in
   outcome Scenario.env0 s (Scenario.reveal 0) = None /\
   outcome Scenario.env0 s' (Scenario.reveal 0) = None /\
   counter s' "1.0" = FHE.Encrypted 1 /\
   counter (exec Scenario.env0 s' (Scenario.reveal 0)) "1.0" = FHE.Encrypted 2).
Proof. vm_compute. repeat split; reflexivity. Qed.

Lemma scanVersions_elem ver l :
  ver ∈ l ->
  exists v, scanVersions (versionKey ver) l = Some v
            /\ versionKey v = versionKey ver /\ v ∈ l.
Proof.
  induction l as [|w l IH]; intros Hin.
  - by apply elem_of_nil in Hin.
  - cbn [scanVersions]. fold (versionKey w).
    destruct (Z.eqb_spec (versionKey w) (versionKey ver)) as [E|E].
    + exists w. split; [done|]. split; [done|]. apply list_elem_of_here.
    + apply elem_of_cons in Hin as [->|Hin]; [done|].
      destruct (IH Hin) as (v & Hv & Hk & Hl). exists v.
      split; [done|]. split; [done|]. by apply list_elem_of_further.
Qed.

Lemma exec_requestPackageDecryption env s packageId :
  succeeds env s (RequestPackageDecryption packageId) = true ->
  revealed s packageId = false /\
  counterRequest s + 1 <= MAX_UINT256 /\
  exec env s (RequestPackageDecryption packageId) = requested packageId s.
Proof.
  intros Hs. destruct (revealed s packageId) eqn:Hr.
  { destruct (body_failed env s (RequestPackageDecryption packageId) _ _
                (requestPackageDecryption_revealed packageId s Hr))
      as (_ & E & _). congruence. }
  destruct (Z_le_gt_dec (counterRequest s + 1) MAX_UINT256) as [H|H].
  - by destruct (body_ok env s (RequestPackageDecryption packageId) _
                   (requestPackageDecryption_ok packageId s Hr H)) as [_ ->].
  - destruct (body_failed env s (RequestPackageDecryption packageId) _ _
                (requestPackageDecryption_overflow packageId s Hr ltac:(lia)))
      as (_ & E & _). congruence.
Qed.

Lemma exec_requestVersionCountDecryption env s ver :
  succeeds env s (RequestVersionCountDecryption ver) = true ->
  FHE.isInitialized (counter s ver) = true /\
  counterRequest s + 1 <= MAX_UINT256 /\
  exec env s (RequestVersionCountDecryption ver) = count_requested ver s.
Proof.
  intros Hs. destruct (FHE.isInitialized (counter s ver)) eqn:Hi.
  2:{ destruct (body_failed env s (RequestVersionCountDecryption ver) _ _
                  (requestVersionCountDecryption_unknown ver s Hi))
        as (_ & E & _). congruence. }
  destruct (Z_le_gt_dec (counterRequest s + 1) MAX_UINT256) as [H|H].
  - by destruct (body_ok env s (RequestVersionCountDecryption ver) _
                   (requestVersionCountDecryption_ok ver s Hi H)) as [_ ->].
  - destruct (body_failed env s (RequestVersionCountDecryption ver) _ _
                (requestVersionCountDecryption_overflow ver s Hi ltac:(lia)))
      as (_ & E & _). congruence.
Qed.

(** C3.  Subjects of new requests, as the code checks them.  In a reachable
    state, a record request that is accepted is for an id whose [isRevealed]
    flag is false at that time, and is registered under the next request id
    (that the id names a submitted record is not checked); a count request
    that is accepted is for a version whose counter is initialized and listed
    in [versionList], it is registered under the key of that version, and
    [getVersionFromHash] resolves the key to a listed version with the same
    key. *)
Theorem request_subjects env cs0 packageId ver :
  let s := run env initial cs0 in
  (succeeds env s (RequestPackageDecryption packageId) = true ->
   let s1 := exec env s (RequestPackageDecryption packageId) in
   revealed s packageId = false /\
   requestToPackageId s1 !! counterRequest s = Some packageId) /\
  (succeeds env s (RequestVersionCountDecryption ver) = true ->
   let s1 := exec env s (RequestVersionCountDecryption ver) in
   FHE.isInitialized (counter s ver) = true /\
   ver ∈ versionList s /\
   requestToPackageId s1 !! counterRequest s = Some (versionKey ver) /\
   exists v, getVersionFromHash (versionKey ver) s1 = (inr v, s1)
             /\ versionKey v = versionKey ver /\ v ∈ versionList s1).
Proof.
  intros s. pose proof (invariant_reachable env cs0) as Hinv. fold s in Hinv.
  split.
  - intros Hs s1. destruct (exec_requestPackageDecryption env s _ Hs) as (Hr & _ & E).
    split; [done|]. unfold s1. rewrite E. unfold requested. proj.
    apply lookup_insert_eq.
  - intros Hs s1.
    destruct (exec_requestVersionCountDecryption env s _ Hs) as (Hi & _ & E).
    pose proof (proj1 (inv_versions s Hinv ver) Hi) as Hin.
    split; [done|]. split; [done|]. unfold s1. rewrite E. split.
    + unfold count_requested. proj. apply lookup_insert_eq.
    + destruct (scanVersions_elem ver (versionList s) Hin) as (v & Hv & Hk & Hl).
      exists v. split; [|done].
      unfold getVersionFromHash. unfold_M. unfold count_requested. proj.
      by rewrite Hv.
Qed.

(** The count request of "1.0" after the end-to-end trace. *)
Lemma request_subjects_witness :
  FHE.isInitialized (counter (run Scenario.env0 initial Scenario.end_to_end) "1.0") = true /\
  requestToPackageId (run Scenario.env0 initial Scenario.count_requested_trace) !! 1
  = Some (versionKey "1.0").
Proof.
  destruct (request_subjects Scenario.env0 Scenario.end_to_end 1 "1.0") as [_ H].
  destruct H as (H1 & _ & H2 & _); [vm_compute; reflexivity|].
  split; [exact H1|]. vm_compute in H2. vm_compute. exact H2.
Defined.

(** C3 as stated fails: in the initial state, where nothing has been
    submitted, a reveal request for id 7 is accepted and registered. *)
Lemma request_subjects_counterexample :
  packageCount initial = 0 /\
  encryptedPackages initial !! 7 = None /\
  outcome Scenario.env0 initial (RequestPackageDecryption 7) = None /\
  requestToPackageId (exec Scenario.env0 initial (RequestPackageDecryption 7)) !! 0
  = Some 7.
Proof. vm_compute. repeat split; reflexivity. Qed.

(** C4.  A repeated reveal request, as the code treats it.  While a record
    is unrevealed, a second [requestPackageDecryption] for it is accepted
    like the first and registers a second pending request for the same
    record, under the next request id.  The call is rejected with "Already
    decrypted", and registers nothing, exactly when the record is revealed. *)
Theorem repeated_request_accepted env s packageId :
  let c := RequestPackageDecryption packageId in
  let s1 := exec env s c in
  let s2 := exec env s1 c in
  revealed s packageId = false ->
  counterRequest s + 2 <= MAX_UINT256 ->
  (outcome env s c = None /\ outcome env s1 c = None /\
   requestToPackageId s2 !! counterRequest s = Some packageId /\
   requestToPackageId s2 !! (counterRequest s + 1) = Some packageId) /\
  (forall s', revealed s' packageId = true ->
     outcome env s' c = Some (RequireFailed "Already decrypted") /\
     exec env s' c = s').
Proof.
  intros c s1 s2 Hr Hle. split.
  - assert (E1 : body env c s = (inr tt, requested packageId s)).
    { apply requestPackageDecryption_ok; [done|lia]. }
    assert (S1 : s1 = requested packageId s).
    { by destruct (body_ok env s c _ E1) as [_ ?]. }
    assert (E2 : body env c s1 = (inr tt, requested packageId s1)).
    { apply requestPackageDecryption_ok.
      - rewrite S1. unfold revealed, requested in *. by proj.
      - rewrite S1. unfold requested. proj. lia. }
    assert (S2 : s2 = requested packageId s1).
    { by destruct (body_ok env s1 c _ E2) as [_ ?]. }
    unfold outcome. rewrite E1, E2. split; [done|]. split; [done|].
    rewrite S2, S1. unfold requested. proj. split.
    + rewrite lookup_insert_ne by lia. apply lookup_insert_eq.
    + apply lookup_insert_eq.
  - intros s' Hr'.
    by destruct (body_failed env s' c _ _
                   (requestPackageDecryption_revealed packageId s' Hr'))
      as (? & _ & ?).
Qed.

Lemma repeated_request_accepted_witness :
  outcome Scenario.env0
    (exec Scenario.env0 (exec Scenario.env0 initial Scenario.submit1)
       (RequestPackageDecryption 1))
    (RequestPackageDecryption 1) = None.
Proof.
  apply (repeated_request_accepted Scenario.env0
           (exec Scenario.env0 initial Scenario.submit1) 1);
    vm_compute; congruence.
Defined.

(** C4 as stated fails: after one submit, the second reveal request for the
    unrevealed record 1 does not fail, and requests 0 and 1 are both pending
    for record 1. *)
Lemma repeated_request_accepted_counterexample :
  let s := run Scenario.env0 initial [Scenario.submit1; RequestPackageDecryption 1] in
  revealed s 1 = false /\
  outcome Scenario.env0 s (RequestPackageDecryption 1) = None /\
  requestToPackageId (exec Scenario.env0 s (RequestPackageDecryption 1)) !! 0 = Some 1 /\
  requestToPackageId (exec Scenario.env0 s (RequestPackageDecryption 1)) !! 1 = Some 1.
Proof. vm_compute. repeat split; reflexivity. Qed.

(** ** One keyspace for two kinds of subject *)

(** C9.  The request map as the code keeps it.  [requestToPackageId] stores a
    bare [uint256] for both kinds of request and each callback reads the
    stored number in its own way.  A count request for [ver] is stored under
    [versionKey ver]; the record callback accepts that request id whenever
    the number is not 0 and the record slot with that number is unrevealed,
    and then reveals that slot.  A record request for [packageId] is stored
    under [packageId]; the counter callback accepts that request id whenever
    [packageId] is the key of a listed version. *)
Theorem shared_keyspace env s ver packageId ct pf results r0 r1 r2 v n :
  let r := counterRequest s in
  let s1 := exec env s (RequestVersionCountDecryption ver) in
  let s2 := exec env s (RequestPackageDecryption packageId) in
  counterRequest s + 1 <= MAX_UINT256 ->
  verifySignatures env r ct pf = true ->
  (FHE.isInitialized (counter s ver) = true ->
   versionKey ver ≠ 0 ->
   revealed s (versionKey ver) = false ->
   abi_decode_strings env ct = Some results ->
   results !! 0%nat = Some r0 ->
   results !! 1%nat = Some r1 ->
   results !! 2%nat = Some r2 ->
   subject s1 r = versionKey ver /\
   succeeds env s1 (DecryptPackage r ct pf) = true /\
   revealed (exec env s1 (DecryptPackage r ct pf)) (versionKey ver) = true) /\
  (revealed s packageId = false ->
   scanVersions packageId (versionList s) = Some v ->
   abi_decode_uint32 env ct = Some n ->
   subject s2 r = packageId /\
   succeeds env s2 (DecryptVersionCount r ct pf) = true).
Proof.
  intros r s1 s2 Hle Hv. split.
  - intros Hi Hk Hr Hd H0 H1 H2.
    assert (S1 : s1 = count_requested ver s).
    { by destruct (body_ok env s (RequestVersionCountDecryption ver) _
                     (requestVersionCountDecryption_ok ver s Hi Hle)) as [_ ?]. }
    assert (Hsub : subject s1 r = versionKey ver).
    { rewrite S1. unfold subject, count_requested. proj.
      by rewrite lookup_insert_eq. }
    assert (Hr1 : revealed s1 (subject s1 r) = false).
    { rewrite Hsub, S1. unfold revealed, count_requested in *. by proj. }
    assert (Hz1 : subject s1 r ≠ 0) by by rewrite Hsub.
    destruct (body_ok env s1 (DecryptPackage r ct pf) _
                (decryptPackage_ok env r ct pf s1 results r0 r1 r2
                   Hz1 Hr1 Hv Hd H0 H1 H2)) as [Hs ->].
    split; [done|]. split; [done|].
    rewrite Hsub. unfold revealed, commit. proj.
    by rewrite lookup_total_insert_eq.
  - intros Hr Hs Hd.
    assert (S2 : s2 = requested packageId s).
    { by destruct (body_ok env s (RequestPackageDecryption packageId) _
                     (requestPackageDecryption_ok packageId s Hr Hle)) as [_ ?]. }
    assert (Hsub : subject s2 r = packageId).
    { rewrite S2. unfold subject, requested. proj.
      by rewrite lookup_insert_eq. }
    split; [done|].
    assert (Hs2 : scanVersions (subject s2 r) (versionList s2) = Some v).
    { rewrite Hsub, S2. unfold requested. by proj. }
    by destruct (body_ok env s2 (DecryptVersionCount r ct pf) _
                   (decryptVersionCount_ok env r ct pf s2 v n Hs2 Hv Hd))
      as [? _].
Qed.

(** The count request of "1.0" after the end-to-end trace, answered through
    the record callback. *)
Lemma shared_keyspace_witness :
  let s := run Scenario.env0 initial Scenario.end_to_end in
  succeeds Scenario.env0
    (exec Scenario.env0 s (RequestVersionCountDecryption "1.0"))
    (DecryptPackage (counterRequest s) Scenario.alpha (rev Scenario.alpha)) = true.
Proof.
  intros s.
  destruct (shared_keyspace Scenario.env0 s "1.0" 5
              Scenario.alpha (rev Scenario.alpha)
              ["alpha"; "1.0"; "desc"]%string "alpha" "1.0" "desc" "1.0" 0)
    as [H _].
  - vm_compute. congruence.
  - vm_compute. reflexivity.
  - destruct H as (_ & H & _).
    + vm_compute. reflexivity.
    + vm_compute. congruence.
    + vm_compute. reflexivity.
    + vm_compute. reflexivity.
    + reflexivity.
    + reflexivity.
    + reflexivity.
    + exact H.
Defined.

(** C9 as stated fails.  Request 1 of the trace is a count request for "1.0";
    the record callback accepts it and reveals the record slot numbered by
    the hash, although only one record exists.  The other way round, a record
    request for the id that is the key of "1.0" is accepted by the counter
    callback. *)
Lemma shared_keyspace_counterexample :
  let s := run Scenario.env0 initial Scenario.count_requested_trace in
  let s' := exec Scenario.env0 s (RequestPackageDecryption (versionKey "1.0")) in
  (packageCount s = 1 /\
   requestToPackageId s !! 1 = Some (versionKey "1.0") /\
   outcome Scenario.env0 s (Scenario.reveal 1) = None /\
   revealed s (versionKey "1.0") = false /\
   revealed (exec Scenario.env0 s (Scenario.reveal 1)) (versionKey "1.0") = true) /\
  (requestToPackageId s' !! 2 = Some (versionKey "1.0") /\
   outcome Scenario.env0 s' (Scenario.count_reveal 2 1) = None).
Proof. vm_compute. repeat split; reflexivity. Qed.

(** * Further properties of the contract *)

(** ** [getVersionFromHash] *)

Lemma scanVersions_Some hash l v :
  scanVersions hash l = Some v ->
  exists l1 l2, l = l1 ++ v :: l2 /\ versionKey v = hash
                /\ Forall (fun w => versionKey w ≠ hash) l1.
Proof.
  induction l as [|w l IH]; cbn [scanVersions]; [discriminate|].
  fold (versionKey w).
  destruct (Z.eqb_spec (versionKey w) hash) as [E|E].
  - intros [= <-]. exists [], l. by repeat split.
  - intros H. destruct (IH H) as (l1 & l2 & -> & Hk & Hall).
    exists (w :: l1), l2. split; [done|]. split; [done|]. by constructor.
Qed.

Lemma scanVersions_None hash l :
  scanVersions hash l = None -> Forall (fun w => versionKey w ≠ hash) l.
Proof.
  induction l as [|w l IH]; cbn [scanVersions]; [by constructor|].
  fold (versionKey w).
  destruct (Z.eqb_spec (versionKey w) hash) as [E|E]; [discriminate|].
  intros H. constructor; [done|by apply IH].
Qed.

(** X1.  [getVersionFromHash hash] reads the list from the front: it returns
    the first listed version whose key is [hash], and reverts with "Version
    not found" exactly when no listed version has that key.  It never writes. *)
Theorem getVersionFromHash_first_match hash s :
  match getVersionFromHash hash s with
  | (inr v, s') =>
      s' = s /\
      exists l1 l2, versionList s = l1 ++ v :: l2 /\ versionKey v = hash
                    /\ Forall (fun w => versionKey w ≠ hash) l1
  | (inl e, s') =>
      s' = s /\ e = RequireFailed "Version not found" /\
      Forall (fun w => versionKey w ≠ hash) (versionList s)
  end.
Proof.
  unfold getVersionFromHash. unfold_M.
  destruct (scanVersions hash (versionList s)) as [v|] eqn:E.
  - split; [done|]. by apply scanVersions_Some.
  - split; [done|]. split; [done|]. by apply scanVersions_None.
Qed.

(** ** The list of versions *)

Lemma versionList_step env s c s' :
  step env s c s' -> exists l, versionList s' = versionList s ++ l.
Proof.
  intros []; try (exists []; by rewrite app_nil_r).
  unfold commit. proj. destruct (negb _); [by eexists|].
  exists []. by rewrite app_nil_r.
Qed.

Lemma versionList_run env cs s :
  exists l, versionList (run env s cs) = versionList s ++ l.
Proof.
  revert s. induction cs as [|c cs IH]; intros s.
  - exists []. by rewrite app_nil_r.
  - rewrite run_cons. destruct (IH (exec env s c)) as [l2 ->].
    destruct (versionList_step env s c _ (exec_step env s c)) as [l1 ->].
    exists (l1 ++ l2). by rewrite app_assoc.
Qed.

Lemma versionList_NoDup_step env s c s' :
  invariant s -> step env s c s' ->
  NoDup (versionList s) -> NoDup (versionList s').
Proof.
  intros Hinv Hstep Hnd. destruct Hstep; try done.
  unfold commit. proj.
  destruct (FHE.isInitialized (encryptedVersionCount s !!! r1)) eqn:Hi;
    cbn [negb]; [done|].
  apply NoDup_app. split; [done|]. split; [|apply NoDup_singleton].
  intros x Hx Hx'. apply list_elem_of_singleton in Hx'. subst x.
  apply (inv_versions s Hinv) in Hx. unfold counter in Hx. congruence.
Qed.

Lemma versionList_NoDup env cs : NoDup (versionList (run env initial cs)).
Proof.
  assert (H : invariant (run env initial cs)
              /\ NoDup (versionList (run env initial cs))); [|by destruct H].
  apply (run_preserves env (fun s => invariant s /\ NoDup (versionList s))).
  - intros s c s' [Hinv Hnd] Hstep. split.
    + by eapply invariant_step.
    + by eapply versionList_NoDup_step.
  - split; [apply invariant_initial|apply NoDup_nil_2].
Qed.

(** X2.  [versionList] in every state reachable from deployment: it has no
    duplicates, it lists exactly the versions whose counter is initialized,
    which are exactly the versions that at least one successful reveal of the
    trace has carried, and later transactions only append to it. *)
Theorem versionList_exact env cs ver cs' :
  let s := run env initial cs in
  NoDup (versionList s) /\
  (ver ∈ versionList s <-> FHE.isInitialized (counter s ver) = true) /\
  (ver ∈ versionList s <-> 1 <= reveals env ver initial cs) /\
  (exists l, versionList (run env s cs') = versionList s ++ l).
Proof.
  intros s. pose proof (invariant_reachable env cs) as Hinv. fold s in Hinv.
  split; [apply versionList_NoDup|]. split; [|split].
  - symmetry. apply (inv_versions s Hinv).
  - rewrite <- (inv_versions s Hinv). unfold s. rewrite counter_run.
    pose proof (reveals_nonneg env ver cs initial) as Hn.
    unfold bumped.
    replace (counter initial ver) with FHE.Uninitialized
      by (unfold counter; cbn; by rewrite lookup_total_empty).
    destruct (Z.eqb_spec (reveals env ver initial cs) 0) as [E|E]; cbn.
    + split; [done|lia].
    + split; [lia|done].
  - apply versionList_run.
Qed.

(** ** Stored records *)

Lemma encryptedPackages_step env s c s' packageId :
  step env s c s' ->
  packageId <= packageCount s ->
  encryptedPackages s' !! packageId = encryptedPackages s !! packageId.
Proof.
  intros Hstep Hle. destruct Hstep; try done.
  unfold submitted. proj. rewrite lookup_insert_ne; [done|lia].
Qed.

Lemma encryptedPackages_run env packageId cs s :
  packageId <= packageCount s ->
  encryptedPackages (run env s cs) !! packageId = encryptedPackages s !! packageId.
Proof.
  revert s. induction cs as [|c cs IH]; intros s Hle; [done|].
  rewrite run_cons, IH.
  - eapply encryptedPackages_step; [apply exec_step|done].
  - pose proof (packageCount_step env s c _ (exec_step env s c)). lia.
Qed.

Lemma exec_submitEncryptedPackage env s n v d t :
  succeeds env s (SubmitEncryptedPackage n v d t) = true ->
  packageCount s + 1 <= MAX_UINT256 /\
  exec env s (SubmitEncryptedPackage n v d t) = submitted n v d t s.
Proof.
  intros Hs. destruct (Z_le_gt_dec (packageCount s + 1) MAX_UINT256) as [H|H].
  - by destruct (body_ok env s (SubmitEncryptedPackage n v d t) _
                   (submitEncryptedPackage_ok n v d t s H)) as [_ ?].
  - destruct (body_failed env s (SubmitEncryptedPackage n v d t) _ _
                (submitEncryptedPackage_overflow n v d t s ltac:(lia)))
      as (_ & E & _). congruence.
Qed.

(** X3.  An encrypted record is written once.  After a successful submit,
    the slot of the new id holds the id itself, the three handles as they
    were passed in and the block timestamp, and no later transaction changes
    that slot. *)
Theorem encrypted_record_immutable env s n v d t cs :
  let s1 := exec env s (SubmitEncryptedPackage n v d t) in
  succeeds env s (SubmitEncryptedPackage n v d t) = true ->
  encryptedPackages (run env s1 cs) !! packageCount s1
  = Some {| id_ := packageCount s1; encryptedName := n; encryptedVersion := v;
            encryptedDescription := d; timestamp := t |}.
Proof.
  intros s1 Hs. rewrite encryptedPackages_run by lia.
  destruct (exec_submitEncryptedPackage env s n v d t Hs) as [_ E].
  unfold s1. rewrite E. unfold submitted. proj. apply lookup_insert_eq.
Qed.

Lemma encrypted_record_immutable_witness :
  encryptedPackages
    (run Scenario.env0 (exec Scenario.env0 initial Scenario.submit1)
       [RequestPackageDecryption 1; Scenario.reveal 0; Scenario.submit1])
  !! 1
  = Some {| id_ := 1; encryptedName := Scenario.h1;
            encryptedVersion := Scenario.h2;
            encryptedDescription := Scenario.h3; timestamp := 1700000000 |}.
Proof.
  apply (encrypted_record_immutable Scenario.env0 initial
           Scenario.h1 Scenario.h2 Scenario.h3 1700000000
           [RequestPackageDecryption 1; Scenario.reveal 0; Scenario.submit1]).
  vm_compute. reflexivity.
Defined.

(** Once a submitted record is revealed, no transaction writes to it. *)
Lemma revealed_record_step env s c s' packageId :
  step env s c s' ->
  packageId <= packageCount s ->
  revealed s packageId = true ->
  decryptedPackages s' !!! packageId = decryptedPackages s !!! packageId.
Proof.
  intros Hstep Hle Hr. destruct Hstep; try done.
  - unfold submitted. proj. rewrite lookup_total_insert_ne; [done|lia].
  - unfold commit. proj. rewrite lookup_total_insert_ne; [done|].
    intros E. congruence.
Qed.

Lemma revealed_record_run env packageId cs s :
  packageId <= packageCount s ->
  revealed s packageId = true ->
  decryptedPackages (run env s cs) !!! packageId = decryptedPackages s !!! packageId.
Proof.
  revert s. induction cs as [|c cs IH]; intros s Hle Hr; [done|].
  rewrite run_cons, IH.
  - eapply revealed_record_step; [apply exec_step|done..].
  - pose proof (packageCount_step env s c _ (exec_step env s c)). lia.
  - eapply revealed_step; [apply exec_step|done..].
Qed.

(** X4.  Read after reveal.  When a record callback succeeds for a record
    that has been submitted, the payload decodes to at least three strings,
    and from then on [getDecryptedPackage] returns the first three of them
    with [isRevealed = true], whatever is called afterwards. *)
Theorem read_after_reveal env s r ct pf cs :
  let s1 := exec env s (DecryptPackage r ct pf) in
  succeeds env s (DecryptPackage r ct pf) = true ->
  subject s r <= packageCount s ->
  exists r0 r1 r2 rest,
    abi_decode_strings env ct = Some (r0 :: r1 :: r2 :: rest) /\
    getDecryptedPackage (subject s r) (run env s1 cs)
    = (inr (r0, r1, r2, true), run env s1 cs).
Proof.
  intros s1 Hs Hle.
  destruct (exec_decryptPackage env s r ct pf Hs)
    as (results & r0 & r1 & r2 & _ & _ & _ & Hd & H0 & H1 & H2 & E).
  destruct results as [|x0 [|x1 [|x2 rest]]]; try discriminate.
  cbn in H0, H1, H2. injection H0 as ->. injection H1 as ->. injection H2 as ->.
  exists r0, r1, r2, rest. split; [done|].
  assert (Hr1 : revealed s1 (subject s r) = true).
  { unfold s1. rewrite E. unfold revealed, commit. proj.
    by rewrite lookup_total_insert_eq. }
  assert (Hle1 : subject s r <= packageCount s1).
  { unfold s1. rewrite E. unfold commit. by proj. }
  unfold getDecryptedPackage. unfold_M.
  rewrite (revealed_record_run env _ cs s1 Hle1 Hr1).
  unfold s1 at 1 2 3 4. rewrite E. unfold commit. proj.
  by rewrite lookup_total_insert_eq.
Qed.

Lemma read_after_reveal_witness :
  exists r0 r1 r2 rest,
    abi_decode_strings Scenario.env0 Scenario.alpha = Some (r0 :: r1 :: r2 :: rest) /\
    getDecryptedPackage
      (subject (run Scenario.env0 initial [Scenario.submit1; RequestPackageDecryption 1]) 0)
      (run Scenario.env0
         (exec Scenario.env0
            (run Scenario.env0 initial [Scenario.submit1; RequestPackageDecryption 1])
            (DecryptPackage 0 Scenario.alpha (rev Scenario.alpha)))
         [Scenario.submit1; Scenario.reveal 0])
    = (inr (r0, r1, r2, true),
       run Scenario.env0
         (exec Scenario.env0
            (run Scenario.env0 initial [Scenario.submit1; RequestPackageDecryption 1])
            (DecryptPackage 0 Scenario.alpha (rev Scenario.alpha)))
         [Scenario.submit1; Scenario.reveal 0]).
Proof.
  apply (read_after_reveal Scenario.env0
           (run Scenario.env0 initial [Scenario.submit1; RequestPackageDecryption 1])
           0 Scenario.alpha (rev Scenario.alpha)
           [Scenario.submit1; Scenario.reveal 0]);
    vm_compute; congruence.
Defined.

(** ** The request registry *)

Lemma registered_step env s c s' :
  step env s c s' ->
  (forall r, 0 <= r < counterRequest s -> is_Some (requestToPackageId s !! r)) ->
  0 <= counterRequest s ->
  forall r, 0 <= r < counterRequest s' -> is_Some (requestToPackageId s' !! r).
Proof.
  intros Hstep Hreg Hcr. destruct Hstep; try done.
  - unfold requested. proj. intros r Hr.
    destruct (decide (counterRequest s = r)) as [<-|Hne].
    + rewrite lookup_insert_eq. by eexists.
    + rewrite lookup_insert_ne by done. apply Hreg. lia.
  - unfold count_requested. proj. intros r Hr.
    destruct (decide (counterRequest s = r)) as [<-|Hne].
    + rewrite lookup_insert_eq. by eexists.
    + rewrite lookup_insert_ne by done. apply Hreg. lia.
Qed.

Lemma registered_reachable env cs r :
  0 <= r < counterRequest (run env initial cs) ->
  is_Some (requestToPackageId (run env initial cs) !! r).
Proof.
  revert r.
  assert (H : invariant (run env initial cs) /\
              forall r, 0 <= r < counterRequest (run env initial cs) ->
                        is_Some (requestToPackageId (run env initial cs) !! r));
    [|by destruct H].
  apply (run_preserves env (fun s =>
           invariant s /\
           forall r, 0 <= r < counterRequest s ->
                     is_Some (requestToPackageId s !! r))).
  - intros s c s' [Hinv Hreg] Hstep. split.
    + by eapply invariant_step.
    + eapply registered_step; [done..|]. by destruct Hinv.
  - split; [apply invariant_initial|]. cbn. intros r Hr. lia.
Qed.

(** X5.  Request ids.  In every state reachable from deployment the
    registered request ids are exactly [0 .. counterRequest - 1]; a request of
    either kind that is accepted is registered under the id [counterRequest],
    which was free, and raises [counterRequest] by one; and an entry, once
    registered, is never changed or removed. *)
Theorem request_ids_sequential env cs r p cs' packageId ver :
  let s := run env initial cs in
  (is_Some (requestToPackageId s !! r) <-> 0 <= r < counterRequest s) /\
  (succeeds env s (RequestPackageDecryption packageId) = true ->
   let s1 := exec env s (RequestPackageDecryption packageId) in
   requestToPackageId s !! counterRequest s = None /\
   requestToPackageId s1 !! counterRequest s = Some packageId /\
   counterRequest s1 = counterRequest s + 1) /\
  (succeeds env s (RequestVersionCountDecryption ver) = true ->
   let s1 := exec env s (RequestVersionCountDecryption ver) in
   requestToPackageId s !! counterRequest s = None /\
   requestToPackageId s1 !! counterRequest s = Some (versionKey ver) /\
   counterRequest s1 = counterRequest s + 1) /\
  (requestToPackageId s !! r = Some p ->
   requestToPackageId (run env s cs') !! r = Some p).
Proof.
  intros s. pose proof (invariant_reachable env cs) as Hinv. fold s in Hinv.
  assert (Hfree : requestToPackageId s !! counterRequest s = None).
  { destruct (requestToPackageId s !! counterRequest s) as [q|] eqn:E; [|done].
    pose proof (inv_requests s Hinv _ (ex_intro _ q E)). lia. }
  split; [|split; [|split]].
  - split; [apply (inv_requests s Hinv)|apply registered_reachable].
  - intros Hs s1. destruct (exec_requestPackageDecryption env s _ Hs) as (_ & _ & E).
    unfold s1. rewrite E. unfold requested. proj.
    split; [done|]. split; [apply lookup_insert_eq|done].
  - intros Hs s1.
    destruct (exec_requestVersionCountDecryption env s _ Hs) as (_ & _ & E).
    unfold s1. rewrite E. unfold count_requested. proj.
    split; [done|]. split; [apply lookup_insert_eq|done].
  - by apply request_run.
Qed.

(** ** No reveal without a request *)

Lemma asked_for_step env s c s' p :
  step env s c s' -> asked_for s p -> asked_for s' p.
Proof.
  intros Hstep [H|(v & Hv & Hk)].
  - left. destruct Hstep; try done;
      unfold submitted, requested, commit; proj; apply elem_of_app; by left.
  - right. exists v. split; [|done].
    destruct (versionList_step env s c s' Hstep) as [l ->].
    apply elem_of_app. by left.
Qed.

Lemma requested_before_revealed_step env s c s' :
  invariant s ->
  step env s c s' ->
  (forall r p, requestToPackageId s !! r = Some p -> asked_for s p) ->
  (forall p, revealed s p = true -> asked_for s p) ->
  (forall r p, requestToPackageId s' !! r = Some p -> asked_for s' p) /\
  (forall p, revealed s' p = true -> asked_for s' p).
Proof.
  intros Hinv Hstep Hreq Hrev.
  assert (Hmono : forall p, asked_for s p -> asked_for s' p).
  { intros p. by apply (asked_for_step env s c). }
  destruct Hstep as [c _|n v d t Hle|packageId Hr Hle|ver Hi Hle
                     |r ct pf results r0 r1 r2 Hz Hr Hv Hd H0 H1 H2|r ct pf _].
  - done.
  - split.
    + intros r p Hp. apply Hmono, (Hreq r). exact Hp.
    + intros p Hp. apply Hmono, Hrev. revert Hp. unfold revealed, submitted. proj.
      destruct (decide (packageCount s + 1 = p)) as [<-|Hne].
      * by rewrite lookup_total_insert_eq.
      * by rewrite lookup_total_insert_ne.
  - split.
    + intros r p. unfold requested at 1. proj.
      destruct (decide (counterRequest s = r)) as [<-|Hne].
      * rewrite lookup_insert_eq. intros [= <-]. left.
        unfold requested. proj. apply elem_of_app. right.
        by apply list_elem_of_singleton.
      * rewrite lookup_insert_ne by done. intros Hp. by apply Hmono, (Hreq r).
    + intros p Hp. by apply Hmono, Hrev.
  - split.
    + intros r p. unfold count_requested at 1. proj.
      destruct (decide (counterRequest s = r)) as [<-|Hne].
      * rewrite lookup_insert_eq. intros [= <-]. right. exists ver.
        split; [|done]. unfold count_requested. proj.
        by apply (inv_versions s Hinv).
      * rewrite lookup_insert_ne by done. intros Hp. by apply Hmono, (Hreq r).
    + intros p Hp. by apply Hmono, Hrev.
  - split.
    + intros r' p Hp. by apply Hmono, (Hreq r').
    + intros p. unfold revealed, commit at 1. proj.
      destruct (decide (subject s r = p)) as [<-|Hne].
      * intros _. apply Hmono, (Hreq r). by apply subject_Some.
      * rewrite lookup_total_insert_ne by done. intros Hp. by apply Hmono, Hrev.
  - done.
Qed.

(** X6.  No reveal without a request.  In every state reachable from
    deployment, a record slot whose [isRevealed] flag is set carries a number
    that some accepted request was made for: either a [DecryptionRequested]
    event with that id is in the log, or the number is the key of a listed
    version (the count requests, which share the map). *)
Theorem revealed_only_on_request env cs packageId :
  let s := run env initial cs in
  revealed s packageId = true ->
  DecryptionRequested packageId ∈ events s \/
  exists v, v ∈ versionList s /\ versionKey v = packageId.
Proof.
  intros s.
  assert (H : invariant s /\
              (forall r p, requestToPackageId s !! r = Some p -> asked_for s p) /\
              (forall p, revealed s p = true -> asked_for s p)).
  { apply (run_preserves env (fun s =>
             invariant s /\
             (forall r p, requestToPackageId s !! r = Some p -> asked_for s p) /\
             (forall p, revealed s p = true -> asked_for s p))).
    - intros s0 c s' (Hinv & Hreq & Hrev) Hstep. split.
      + by eapply invariant_step.
      + by eapply requested_before_revealed_step.
    - split; [apply invariant_initial|]. split.
      + intros r p. cbn. by rewrite lookup_empty.
      + intros p. unfold revealed. cbn. by rewrite lookup_total_empty. }
  destruct H as (_ & _ & Hrev). apply Hrev.
Qed.

Lemma revealed_only_on_request_witness :
  DecryptionRequested 1
    ∈ events (run Scenario.env0 initial Scenario.end_to_end) \/
  exists v, v ∈ versionList (run Scenario.env0 initial Scenario.end_to_end)
            /\ versionKey v = 1.
Proof.
  apply (revealed_only_on_request Scenario.env0 Scenario.end_to_end 1).
  vm_compute. reflexivity.
Defined.

(** ** The order of the checks in the callbacks *)

(** X7.  The record callback decides in a fixed order: a request id that
    maps to 0 is "Invalid request"; else a revealed record is "Already
    decrypted"; else a proof that does not verify is [InvalidProof]; else a
    payload that does not decode is [MalformedPayload]; else a payload with
    fewer than three strings is the array-index panic 0x32; else the call
    succeeds.  Whenever it fails the transaction leaves the state as it was,
    also in the panic case, where the body had already written the name. *)
Theorem decryptPackage_check_order env s requestId cleartexts proof :
  outcome env s (DecryptPackage requestId cleartexts proof)
  = decryptPackage_verdict env s requestId cleartexts proof /\
  (decryptPackage_verdict env s requestId cleartexts proof ≠ None ->
   exec env s (DecryptPackage requestId cleartexts proof) = s).
Proof.
  assert (H : outcome env s (DecryptPackage requestId cleartexts proof)
              = decryptPackage_verdict env s requestId cleartexts proof).
  { unfold outcome, decryptPackage_verdict. cbn [body].
    destruct (decryptPackage env requestId cleartexts proof s) as [[e|[]] s'] eqn:E.
    - apply decryptPackage_fails in E.
      destruct E as [(Hz & -> & _)|[(Hz & Hr & -> & _)|[(Hz & Hr & Hv & -> & _)
                    |[(Hz & Hr & Hv & Hd & -> & _)
                     |(Hz & Hr & Hv & (results & Hd & Hlen) & ->)]]]].
      + by rewrite Hz.
      + destruct (Z.eqb_spec (subject s requestId) 0); [done|]. by rewrite Hr.
      + destruct (Z.eqb_spec (subject s requestId) 0); [done|]. by rewrite Hr, Hv.
      + destruct (Z.eqb_spec (subject s requestId) 0); [done|].
        by rewrite Hr, Hv, Hd.
      + destruct (Z.eqb_spec (subject s requestId) 0); [done|].
        rewrite Hr, Hv, Hd. cbn [negb].
        by destruct (Nat.ltb_spec (length results) 3); [|lia].
    - apply decryptPackage_succeeds in E.
      destruct E as (results & r0 & r1 & r2 & Hz & Hr & Hv & Hd & H0 & H1 & H2 & _).
      destruct (Z.eqb_spec (subject s requestId) 0); [done|].
      rewrite Hr, Hv, Hd. cbn [negb].
      apply lookup_lt_Some in H2.
      by destruct (Nat.ltb_spec (length results) 3); [lia|]. }
  split; [exact H|]. rewrite <- H. intros Hne.
  destruct (outcome env s (DecryptPackage requestId cleartexts proof)) as [e|] eqn:E;
    [|done].
  by eapply outcome_reverted.
Qed.

(** X8.  Strings past the third are ignored: two accepted record callbacks
    for the same request whose payloads agree on their first three strings
    leave the same state. *)
Theorem decryptPackage_ignores_extra_strings
    env s requestId ct1 pf1 ct2 pf2 r0 r1 r2 rest1 rest2 :
  abi_decode_strings env ct1 = Some (r0 :: r1 :: r2 :: rest1) ->
  abi_decode_strings env ct2 = Some (r0 :: r1 :: r2 :: rest2) ->
  succeeds env s (DecryptPackage requestId ct1 pf1) = true ->
  succeeds env s (DecryptPackage requestId ct2 pf2) = true ->
  exec env s (DecryptPackage requestId ct1 pf1)
  = exec env s (DecryptPackage requestId ct2 pf2).
Proof.
  intros Hd1 Hd2 Hs1 Hs2.
  destruct (exec_decryptPackage env s _ _ _ Hs1)
    as (res1 & a0 & a1 & a2 & _ & _ & _ & Hd1' & A0 & A1 & A2 & ->).
  destruct (exec_decryptPackage env s _ _ _ Hs2)
    as (res2 & b0 & b1 & b2 & _ & _ & _ & Hd2' & B0 & B1 & B2 & ->).
  rewrite Hd1 in Hd1'. injection Hd1' as <-.
  rewrite Hd2 in Hd2'. injection Hd2' as <-.
  cbn in A0, A1, A2, B0, B1, B2. congruence.
Qed.

Lemma decryptPackage_ignores_extra_strings_witness :
  let s := run Scenario.env0 initial [Scenario.submit1; RequestPackageDecryption 1] in
  exec Scenario.env0 s (Scenario.reveal 0)
  = exec Scenario.env0 s
      (DecryptPackage 0 (Scenario.alpha ++ [Byte.x00; Byte.x41])
         (rev (Scenario.alpha ++ [Byte.x00; Byte.x41]))).
Proof.
  intros s.
  apply (decryptPackage_ignores_extra_strings Scenario.env0 s 0
           Scenario.alpha (rev Scenario.alpha)
           (Scenario.alpha ++ [Byte.x00; Byte.x41])
           (rev (Scenario.alpha ++ [Byte.x00; Byte.x41]))
           "alpha" "1.0" "desc" [] ["A"%string]);
    vm_compute; reflexivity.
Defined.

(** ** Submit, request, callback *)

(** X9.  End to end, in general.  In any state with room left in the two
    counters, a submit, a reveal request for the new id and the callback for
    the new request id, with a proof that verifies and a payload that decodes
    to at least three strings, all succeed; afterwards the new record reads as
    the first three strings with [isRevealed = true], the counter of the
    decoded version has been bumped by one, and the log ends with the three
    events of the round. *)
Theorem submit_request_reveal env s n v d t ct pf r0 r1 r2 rest :
  let id := packageCount s + 1 in
  let r := counterRequest s in
  let round := [ SubmitEncryptedPackage n v d t;
                 RequestPackageDecryption id;
                 DecryptPackage r ct pf ] in
  0 <= packageCount s ->
  packageCount s + 1 <= MAX_UINT256 ->
  counterRequest s + 1 <= MAX_UINT256 ->
  verifySignatures env r ct pf = true ->
  abi_decode_strings env ct = Some (r0 :: r1 :: r2 :: rest) ->
  reveals env r1 s round = 1 /\
  getDecryptedPackage id (run env s round) = (inr (r0, r1, r2, true), run env s round) /\
  counter (run env s round) r1 = bumped (counter s r1) 1 /\
  events (run env s round)
  = events s ++ [ PackageSubmitted id t; DecryptionRequested id; PackageDecrypted id ].
Proof.
  intros id r round Hpc Hpc' Hcr Hv Hd. subst round.
  set (s1 := submitted n v d t s).
  set (s2 := requested id s1).
  destruct (body_ok env s (SubmitEncryptedPackage n v d t) s1
              (submitEncryptedPackage_ok _ _ _ _ s Hpc')) as [_ E1].
  assert (Hr1 : revealed s1 id = false).
  { unfold revealed, s1, submitted. proj. by rewrite lookup_total_insert_eq. }
  destruct (body_ok env s1 (RequestPackageDecryption id) s2
              (requestPackageDecryption_ok _ s1 Hr1 Hcr)) as [_ E2].
  assert (Hsub : subject s2 r = id).
  { unfold subject, s2, requested, s1, submitted. proj.
    by rewrite lookup_insert_eq. }
  assert (Hr2 : revealed s2 (subject s2 r) = false) by (by rewrite Hsub).
  assert (Hnz : subject s2 r ≠ 0) by (rewrite Hsub; unfold id; lia).
  destruct (body_ok env s2 (DecryptPackage r ct pf) _
              (decryptPackage_ok env r ct pf s2 (r0 :: r1 :: r2 :: rest)
                 r0 r1 r2 Hnz Hr2 Hv Hd eq_refl eq_refl eq_refl)) as [S3 E3].
  assert (Hrun : run env s [SubmitEncryptedPackage n v d t;
                            RequestPackageDecryption id; DecryptPackage r ct pf]
                 = commit id r0 r1 r2 s2).
  { rewrite !run_cons, run_nil, E1, E2, E3. by rewrite Hsub. }
  split; [|split; [|split]].
  - cbn [reveals reveals_version]. rewrite E1, E2, S3.
    unfold decoded_version. rewrite Hd. cbn.
    by rewrite bool_decide_eq_true_2.
  - rewrite Hrun. unfold getDecryptedPackage. unfold_M.
    unfold commit. proj. by rewrite lookup_total_insert_eq.
  - rewrite Hrun, counter_commit. by destruct (decide (r1 = r1)).
  - rewrite Hrun. unfold commit, s2, requested, s1, submitted. proj.
    by rewrite <- !app_assoc.
Qed.

Lemma submit_request_reveal_witness :
  getDecryptedPackage 1 (run Scenario.env0 initial Scenario.end_to_end)
  = (inr ("alpha"%string, "1.0"%string, "desc"%string, true),
     run Scenario.env0 initial Scenario.end_to_end).
Proof.
  apply (submit_request_reveal Scenario.env0 initial
           Scenario.h1 Scenario.h2 Scenario.h3 1700000000
           Scenario.alpha (rev Scenario.alpha) "alpha" "1.0" "desc" []);
    vm_compute; congruence.
Defined.

(** X10.  A count request can always be answered.  In a state reachable
    from deployment, once [requestVersionCountDecryption ver] is accepted,
    the counter callback for the new request id succeeds for every proof that
    verifies and every payload that decodes, and it changes nothing. *)
Theorem count_request_answerable env cs ver ct pf n :
  let s := run env initial cs in
  let s1 := exec env s (RequestVersionCountDecryption ver) in
  succeeds env s (RequestVersionCountDecryption ver) = true ->
  verifySignatures env (counterRequest s) ct pf = true ->
  abi_decode_uint32 env ct = Some n ->
  decryptVersionCount env (counterRequest s) ct pf s1 = (inr tt, s1).
Proof.
  intros s s1 Hs Hv Hd.
  pose proof (invariant_reachable env cs) as Hinv. fold s in Hinv.
  destruct (exec_requestVersionCountDecryption env s _ Hs) as (Hi & _ & E).
  pose proof (proj1 (inv_versions s Hinv ver) Hi) as Hin.
  destruct (scanVersions_elem ver (versionList s) Hin) as (w & Hw & _ & _).
  apply decryptVersionCount_ok with (ver := w) (n := n); [|done..].
  unfold s1. rewrite E. unfold subject, count_requested. proj.
  by rewrite lookup_insert_eq.
Qed.

Lemma count_request_answerable_witness :
  let s := run Scenario.env0 initial Scenario.end_to_end in
  let s1 := exec Scenario.env0 s (RequestVersionCountDecryption "1.0") in
  decryptVersionCount Scenario.env0 (counterRequest s) (Scenario.count_payload 1)
    (rev (Scenario.count_payload 1)) s1 = (inr tt, s1).
Proof.
  intros s s1.
  apply (count_request_answerable Scenario.env0 Scenario.end_to_end "1.0"
           (Scenario.count_payload 1) (rev (Scenario.count_payload 1)) 1);
    vm_compute; reflexivity.
Defined.

(** X11.  A request id that was never issued.  In a state reachable from
    deployment, for a request id outside [0 .. counterRequest - 1] the record
    callback fails with "Invalid request", and the counter callback fails with
    "Version not found" unless some listed version has the key 0; neither
    changes the state. *)
Theorem unknown_request_rejected env cs r ct pf :
  let s := run env initial cs in
  ~ (0 <= r < counterRequest s) ->
  Forall (fun v => versionKey v ≠ 0) (versionList s) ->
  outcome env s (DecryptPackage r ct pf) = Some (RequireFailed "Invalid request") /\
  outcome env s (DecryptVersionCount r ct pf) = Some (RequireFailed "Version not found") /\
  exec env s (DecryptPackage r ct pf) = s /\
  exec env s (DecryptVersionCount r ct pf) = s.
Proof.
  intros s Hr Hall.
  pose proof (invariant_reachable env cs) as Hinv. fold s in Hinv.
  assert (Hnone : requestToPackageId s !! r = None).
  { destruct (requestToPackageId s !! r) as [q|] eqn:E; [|done].
    pose proof (inv_requests s Hinv _ (ex_intro _ q E)). lia. }
  assert (H1 : outcome env s (DecryptPackage r ct pf)
               = Some (RequireFailed "Invalid request")).
  { unfold outcome. cbn [body]. unfold decryptPackage. unfold_M.
    by rewrite Hnone. }
  assert (H2 : outcome env s (DecryptVersionCount r ct pf)
               = Some (RequireFailed "Version not found")).
  { unfold outcome. cbn [body]. unfold decryptVersionCount. unfold_M.
    rewrite Hnone. cbn [default].
    destruct (scanVersions 0 (versionList s)) as [w|] eqn:E; [|done].
    apply scanVersions_Some in E. destruct E as (l1 & l2 & El & Hk & _).
    rewrite El in Hall. apply Forall_app in Hall as [_ Hall].
    apply Forall_cons in Hall as [Hw _]. done. }
  split; [done|]. split; [done|]. split.
  - by eapply outcome_reverted.
  - apply exec_decryptVersionCount.
Qed.

Lemma unknown_request_rejected_witness :
  outcome Scenario.env0 (run Scenario.env0 initial Scenario.end_to_end)
    (Scenario.count_reveal 999 1)
  = Some (RequireFailed "Version not found").
Proof.
  apply (unknown_request_rejected Scenario.env0 Scenario.end_to_end 999
           (Scenario.count_payload 1) (rev (Scenario.count_payload 1))).
  - vm_compute. intros [_ H]. discriminate H.
  - replace (versionList (run Scenario.env0 initial Scenario.end_to_end))
      with ["1.0"%string] by (vm_compute; reflexivity).
    constructor; [|constructor]. vm_compute. discriminate.
Defined.

(** ** What a transaction leaves alone *)

(** X12.  Each kind of transaction writes only its own part of the
    storage.  Only a submit changes [packageCount] and the encrypted
    records; only the two request functions change the request map and the
    request counter; only the record callback changes the counters and the
    version list; a revealed-record slot is written only by a submit or the
    record callback; and the counter callback changes nothing at all. *)
Theorem transaction_frame env s c :
  let s' := exec env s c in
  ((forall n v d t, c ≠ SubmitEncryptedPackage n v d t) ->
   packageCount s' = packageCount s /\ encryptedPackages s' = encryptedPackages s) /\
  ((forall packageId, c ≠ RequestPackageDecryption packageId) ->
   (forall ver, c ≠ RequestVersionCountDecryption ver) ->
   requestToPackageId s' = requestToPackageId s /\ counterRequest s' = counterRequest s) /\
  ((forall r ct pf, c ≠ DecryptPackage r ct pf) ->
   encryptedVersionCount s' = encryptedVersionCount s /\ versionList s' = versionList s) /\
  ((forall n v d t, c ≠ SubmitEncryptedPackage n v d t) ->
   (forall r ct pf, c ≠ DecryptPackage r ct pf) ->
   decryptedPackages s' = decryptedPackages s) /\
  ((exists r ct pf, c = DecryptVersionCount r ct pf) -> s' = s).
Proof.
  intros s'. pose proof (exec_step env s c) as Hstep. fold s' in Hstep.
  split; [|split; [|split; [|split]]].
  - intros Hc. destruct Hstep; try done. exfalso. by eapply Hc.
  - intros Hc1 Hc2. destruct Hstep; try done; exfalso; first [by eapply Hc1|by eapply Hc2].
  - intros Hc. destruct Hstep; try done. exfalso. by eapply Hc.
  - intros Hc1 Hc2. destruct Hstep; try done; exfalso; first [by eapply Hc1|by eapply Hc2].
  - intros (r & ct & pf & ->). apply exec_decryptVersionCount.
Qed.

(** ** Version keys *)

Lemma Z_to_le_bytes n z : Forall (fun b => 0 <= b <= 255) (Keccak.Z_to_le n z).
Proof.
  revert z. induction n as [|n IH]; intros z; cbn [Keccak.Z_to_le]; constructor.
  - change 255 with (Z.ones 8). rewrite Z.land_ones by lia.
    pose proof (Z.mod_pos_bound z (2 ^ 8) ltac:(lia)).
    change (Z.ones 8) with 255. change (2 ^ 8) with 256 in *. lia.
  - apply IH.
Qed.

Lemma digest_bytes msg :
  Forall (fun b => 0 <= b <= 255) (Keccak.digest msg)
  /\ (length (Keccak.digest msg) <= 32)%nat.
Proof.
  unfold Keccak.digest. split.
  - apply Forall_take. apply Forall_flat_map, Forall_forall.
    intros z _. apply Z_to_le_bytes.
  - rewrite length_take. lia.
Qed.

Lemma be_to_Z_bound bs acc :
  0 <= acc ->
  Forall (fun b => 0 <= b <= 255) bs ->
  0 <= Keccak.be_to_Z acc bs < (acc + 1) * 256 ^ Z.of_nat (length bs).
Proof.
  intros Hacc Hall. revert acc Hacc.
  induction Hall as [|b bs Hb Hall IH]; intros acc Hacc; cbn [Keccak.be_to_Z length].
  - cbn. lia.
  - specialize (IH (256 * acc + b) ltac:(lia)).
    rewrite Nat2Z.inj_succ, Z.pow_succ_r by lia.
    pose proof (Z.pow_pos_nonneg 256 (Z.of_nat (length bs)) ltac:(lia) ltac:(lia)).
    nia.
Qed.

(** X13.  The key of a version is a [uint256]: the number that
    [requestVersionCountDecryption] stores in the request map and that
    [getVersionFromHash] compares against lies in [0 .. 2^256 - 1] for every
    version string. *)
Theorem versionKey_uint256 ver : 0 <= versionKey ver <= MAX_UINT256.
Proof.
  unfold versionKey, bytes32ToUint, keccak256.
  destruct (digest_bytes (abi_encodePacked ver)) as [Hall Hlen].
  pose proof (be_to_Z_bound _ 0 ltac:(lia) Hall) as H.
  assert (256 ^ Z.of_nat (length (Keccak.digest (abi_encodePacked ver))) <= 256 ^ 32).
  { apply Z.pow_le_mono_r; lia. }
  unfold MAX_UINT256. change (256 ^ 32) with (2 ^ 256) in *. lia.
Qed.

(** ** Pending requests *)

(** X14.  A pending request does not expire.  Take a request registered in
    a reachable state for a submitted record that is not revealed.  After any
    further transactions, as long as none of them is a successful callback for
    that record, the callback for the request still succeeds for every proof
    that verifies and every payload that decodes to at least three strings. *)
Theorem pending_request_stays_answerable env cs0 r cs ct pf r0 r1 r2 rest :
  let s := run env initial cs0 in
  let packageId := subject s r in
  packageId ≠ 0 ->
  packageId <= packageCount s ->
  revealed s packageId = false ->
  committed env packageId s cs = false ->
  verifySignatures env r ct pf = true ->
  abi_decode_strings env ct = Some (r0 :: r1 :: r2 :: rest) ->
  succeeds env (run env s cs) (DecryptPackage r ct pf) = true /\
  subject (run env s cs) r = packageId.
Proof.
  intros s packageId Hz Hle Hr Hc Hv Hd.
  pose proof (invariant_reachable env cs0) as Hinv. fold s in Hinv.
  pose proof (subject_Some s r packageId Hz eq_refl) as Hsome.
  pose proof (request_run env r packageId cs s Hinv Hsome) as Hsub.
  apply Some_subject in Hsub.
  split; [|exact Hsub].
  apply (step_committed_succeeds env (run env s cs) r ct pf
           (r0 :: r1 :: r2 :: rest) r0 r1 r2); try done.
  - by rewrite Hsub.
  - rewrite Hsub. unfold revealed in *.
    by rewrite (record_run env packageId cs s Hle Hc).
Qed.

Lemma pending_request_stays_answerable_witness :
  succeeds Scenario.env0
    (run Scenario.env0
       (run Scenario.env0 initial [Scenario.submit1; RequestPackageDecryption 1])
       [Scenario.submit1; RequestPackageDecryption 2; DecryptPackage 0 Scenario.alpha []])
    (Scenario.reveal 0) = true.
Proof.
  apply (pending_request_stays_answerable Scenario.env0
           [Scenario.submit1; RequestPackageDecryption 1] 0
           [Scenario.submit1; RequestPackageDecryption 2; DecryptPackage 0 Scenario.alpha []]
           Scenario.alpha (rev Scenario.alpha) "alpha" "1.0" "desc" []);
    vm_compute; congruence.
Defined.

(** * Properties of the web client *)

(** ** Pages *)

Lemma currentRecords_take_drop {A : Type} (l : list A) (p : Z) :
  1 <= p ->
  Frontend.currentRecords l p = take 5 (drop (Z.to_nat (5 * (p - 1))) l).
Proof.
  intros Hp. unfold Frontend.currentRecords, Frontend.slice, Frontend.itemsPerPage.
  destruct (Z.ltb_spec (p * 5 - 5) 0); [lia|].
  destruct (Z.ltb_spec (p * 5) 0); [lia|].
  destruct (Z_le_gt_dec (p * 5 - 5) (Z.of_nat (length l))) as [Hle|Hgt].
  - rewrite (Z.min_l (p * 5 - 5)) by lia.
    replace (Z.to_nat (5 * (p - 1))) with (Z.to_nat (p * 5 - 5)) by lia.
    destruct (Z_le_gt_dec (p * 5) (Z.of_nat (length l))) as [Hle'|Hgt'].
    + rewrite Z.min_l by lia. f_equal. lia.
    + rewrite Z.min_r by lia.
      rewrite !take_ge; [done| |]; rewrite length_drop; lia.
  - rewrite !Z.min_r by lia.
    replace (Z.to_nat (Z.of_nat (length l) - Z.of_nat (length l))) with 0%nat by lia.
    rewrite take_0, drop_ge by lia. done.
Qed.

Lemma concat_pages {A : Type} (l : list A) (n k : nat) :
  concat (map (fun i => take n (drop (n * i) l)) (seq 0 k)) = take (n * k) l.
Proof.
  induction k as [|k IH].
  - by rewrite Nat.mul_0_r.
  - rewrite seq_S, map_app, concat_app, IH. cbn [map concat Nat.add].
    rewrite app_nil_r, take_take_drop. f_equal. lia.
Qed.

Lemma totalPages_spec {A : Type} (l : list A) :
  let n := Z.of_nat (length l) in
  0 <= Frontend.totalPages l /\
  5 * (Frontend.totalPages l - 1) < n <= 5 * Frontend.totalPages l \/
  (n = 0 /\ Frontend.totalPages l = 0).
Proof.
  intros n. unfold Frontend.totalPages, Frontend.itemsPerPage. fold n.
  pose proof (Z.div_mod (- n) 5 ltac:(lia)) as E.
  pose proof (Z.mod_pos_bound (- n) 5 ltac:(lia)) as B.
  destruct (Z.eq_dec n 0) as [->|Hn].
  - right. split; [done|]. reflexivity.
  - left. lia.
Qed.

(** X15.  The pages partition the table.  Laid end to end, the pages
    [1 .. totalPages] of a list give back the list: every record is on
    exactly one page, in the order of the list. *)
Theorem pages_partition {A : Type} (l : list A) :
  concat (map (Frontend.currentRecords l) (Frontend.pageNumbers l)) = l.
Proof.
  unfold Frontend.pageNumbers.
  set (k := Z.to_nat (Frontend.totalPages l)).
  assert (E : map (Frontend.currentRecords l) (map (fun i => Z.of_nat i) (seq 1 k))
              = map (fun i => take 5 (drop (5 * i) l)) (seq 0 k)).
  { rewrite <- (fmap_S_seq 0 k). rewrite !map_map. apply map_ext. intros i.
    rewrite currentRecords_take_drop by lia. do 2 f_equal. lia. }
  rewrite E, concat_pages. apply take_ge.
  pose proof (totalPages_spec l) as H. cbn zeta in H. lia.
Qed.

(** X16.  Sizes of the pages.  A page from 1 on holds the five records
    that follow the pages before it, or fewer at the end of the list: every
    page has at most five records, every page before the last has exactly
    five, the last page has at least one, and a page past [totalPages] is
    empty although the list may not be. *)
Theorem page_sizes {A : Type} (l : list A) (p : Z) :
  1 <= p ->
  Z.of_nat (length (Frontend.currentRecords l p))
  = Z.max 0 (Z.min 5 (Z.of_nat (length l) - 5 * (p - 1))) /\
  (length (Frontend.currentRecords l p) <= 5)%nat /\
  (p < Frontend.totalPages l -> length (Frontend.currentRecords l p) = 5%nat) /\
  (p = Frontend.totalPages l -> (1 <= length (Frontend.currentRecords l p))%nat) /\
  (Frontend.totalPages l < p -> Frontend.currentRecords l p = []).
Proof.
  intros Hp. rewrite currentRecords_take_drop by done.
  pose proof (totalPages_spec l) as H. cbn zeta in H.
  assert (E : Z.of_nat (length (take 5 (drop (Z.to_nat (5 * (p - 1))) l)))
              = Z.max 0 (Z.min 5 (Z.of_nat (length l) - 5 * (p - 1)))).
  { rewrite length_take, length_drop. lia. }
  split; [exact E|]. split; [lia|]. split; [lia|]. split; [lia|].
  intros Hgt. apply length_zero_iff_nil. lia.
Qed.

Lemma page_sizes_witness :
  Z.of_nat (length (Frontend.currentRecords [1; 2; 3; 4; 5; 6; 7] 2)) = 2.
Proof.
  apply (page_sizes [1; 2; 3; 4; 5; 6; 7] 2). lia.
Defined.

(** ** Statistics *)

Lemma count_category_lookup counts record c :
  default 0 (Frontend.count_category counts record !! c)
  = default 0 (counts !! c)
    + (if decide (Frontend.category record = c) then 1 else 0).
Proof.
  unfold Frontend.count_category.
  destruct (decide (Frontend.category record = c)) as [<-|Hne].
  - by rewrite lookup_insert_eq.
  - rewrite lookup_insert_ne by done. lia.
Qed.

Lemma fold_count_category_lookup records counts c :
  default 0 (fold_left Frontend.count_category records counts !! c)
  = default 0 (counts !! c)
    + Z.of_nat (length (List.filter
                          (fun r => bool_decide (Frontend.category r = c)) records)).
Proof.
  revert counts. induction records as [|r records IH]; intros counts.
  - cbn. lia.
  - cbn [fold_left List.filter]. rewrite IH, count_category_lookup.
    destruct (decide (Frontend.category r = c)) as [E|E].
    + rewrite bool_decide_eq_true_2 by done. cbn [length]. lia.
    + rewrite bool_decide_eq_false_2 by done. lia.
Qed.

Lemma fold_count_category_positive records counts c n :
  (forall k v, counts !! k = Some v -> 1 <= v) ->
  fold_left Frontend.count_category records counts !! c = Some n -> 1 <= n.
Proof.
  revert counts. induction records as [|r records IH]; intros counts Hpos.
  - apply Hpos.
  - cbn [fold_left]. apply IH. intros k v. unfold Frontend.count_category.
    destruct (decide (Frontend.category r = k)) as [<-|Hne].
    + rewrite lookup_insert_eq. intros [= <-].
      destruct (counts !! Frontend.category r) as [w|] eqn:E; cbn; [|lia].
      specialize (Hpos _ _ E). lia.
    + rewrite lookup_insert_ne by done. apply Hpos.
Qed.

(** Sum of the values of a map of counts. *)
Lemma total_insert (counts : gmap string Z) k v :
  map_fold (fun _ x acc => x + acc) 0 (<[k := v]> counts)
  = v - default 0 (counts !! k) + map_fold (fun _ x acc => x + acc) 0 counts.
Proof.
  destruct (counts !! k) as [w|] eqn:E; cbn [default].
  - rewrite (map_fold_delete_L _ 0 k w counts); [cbv beta|intros; lia|done].
    rewrite <- insert_delete_eq.
    rewrite map_fold_insert_L; [cbv beta; unfold id; lia|intros; lia|apply lookup_delete_eq].
  - rewrite map_fold_insert_L; [cbv beta; lia|intros; lia|done].
Qed.

Lemma total_fold records counts :
  map_fold (fun _ x acc => x + acc) 0 (fold_left Frontend.count_category records counts)
  = map_fold (fun _ x acc => x + acc) 0 counts + Z.of_nat (length records).
Proof.
  revert counts. induction records as [|r records IH]; intros counts.
  - cbn. lia.
  - cbn [fold_left length]. rewrite IH. unfold Frontend.count_category.
    rewrite total_insert. lia.
Qed.

(** X17.  The statistics agree with the records.  For records whose
    categories are not property names of [Object.prototype]: the count kept
    for a category is the number of records with that category, a category
    has an entry exactly when some record carries it, every entry is at least
    1, and the entries add up to [totalRecords]. *)
Theorem categoryCounts_exact records c :
  Forall (fun r => Frontend.category r ∉ Frontend.object_prototype_keys) records ->
  let counts := Frontend.categoryCounts records in
  default 0 (counts !! c)
  = Z.of_nat (length (List.filter
                        (fun r => bool_decide (Frontend.category r = c)) records)) /\
  (is_Some (counts !! c) <-> exists r, r ∈ records /\ Frontend.category r = c) /\
  (forall n, counts !! c = Some n -> 1 <= n) /\
  map_fold (fun _ x acc => x + acc) 0 counts = Frontend.totalRecords records.
Proof.
  intros _ counts.
  assert (Hc : default 0 (counts !! c)
               = Z.of_nat (length (List.filter
                   (fun r => bool_decide (Frontend.category r = c)) records))).
  { unfold counts, Frontend.categoryCounts.
    rewrite fold_count_category_lookup, lookup_empty. cbn. lia. }
  assert (Hpos : forall n, counts !! c = Some n -> 1 <= n).
  { intros n. apply fold_count_category_positive. intros k v.
    by rewrite lookup_empty. }
  split; [exact Hc|]. split; [|split; [exact Hpos|]].
  - split.
    + intros [n Hn]. specialize (Hpos n Hn). rewrite Hn in Hc. cbn in Hc.
      destruct (List.filter _ records) as [|r l] eqn:E; [cbn in Hc; lia|].
      assert (Hin : In r (List.filter
                (fun r => bool_decide (Frontend.category r = c)) records))
        by (rewrite E; by left).
      apply filter_In in Hin as [Hin Hb]. apply bool_decide_eq_true_1 in Hb.
      exists r. split; [by apply list_elem_of_In|done].
    + intros (r & Hin & Hr).
      destruct (counts !! c) as [n|] eqn:E; [by eexists|]. exfalso.
      cbn in Hc.
      assert (Hin' : In r (List.filter
                (fun r => bool_decide (Frontend.category r = c)) records)).
      { apply filter_In. split; [by apply list_elem_of_In|].
        by apply bool_decide_eq_true_2. }
      destruct (List.filter _ records); [done|]. cbn in Hc. lia.
  - unfold counts, Frontend.categoryCounts, Frontend.totalRecords.
    rewrite total_fold, map_fold_empty. lia.
Qed.

Lemma categoryCounts_exact_witness :
  default 0 (Frontend.categoryCounts [Frontend.rec1; Frontend.rec2; Frontend.rec3]
             !! "Medical"%string) = 2.
Proof.
  apply (categoryCounts_exact [Frontend.rec1; Frontend.rec2; Frontend.rec3] "Medical").
  repeat constructor; cbn; intros H; repeat (apply elem_of_cons in H as [H|H];
    [discriminate H|]); by apply elem_of_nil in H.
Defined.

(** ** Search *)

Lemma includes_empty s : Frontend.includes s "" = true.
Proof. by destruct s. Qed.

Lemma prefix_refl s : String.prefix s s = true.
Proof.
  induction s as [|a s IH]; [done|]. cbn.
  destruct (ascii_dec a a); [exact IH|done].
Qed.

Lemma includes_refl s : Frontend.includes s s = true.
Proof. destruct s; cbn [Frontend.includes]; by rewrite prefix_refl. Qed.

Lemma filteredRecords_sublist toLowerCase records searchTerm :
  sublist (Frontend.filteredRecords toLowerCase records searchTerm) records.
Proof.
  unfold Frontend.filteredRecords.
  induction records as [|r records IH]; cbn [List.filter]; [constructor|].
  destruct (Frontend.matches toLowerCase searchTerm r); by constructor.
Qed.

(** X18.  The search box.  The rows shown are a selection of the records in
    their order; with an empty search term (which [toLowerCase] keeps empty)
    every record is shown; and a record is always shown for a term that
    equals its category or its owner up to case. *)
Theorem search_finds (toLowerCase : string -> string) records searchTerm r :
  toLowerCase "" = ""%string ->
  r ∈ records ->
  Frontend.filteredRecords toLowerCase records "" = records /\
  sublist (Frontend.filteredRecords toLowerCase records searchTerm) records /\
  (toLowerCase (Frontend.category r) = toLowerCase searchTerm \/
   toLowerCase (Frontend.owner r) = toLowerCase searchTerm ->
   r ∈ Frontend.filteredRecords toLowerCase records searchTerm).
Proof.
  intros Hempty Hin. split; [|split].
  - unfold Frontend.filteredRecords. clear Hin.
    induction records as [|x records IH]; [done|]. cbn [List.filter].
    unfold Frontend.matches at 1. rewrite Hempty, includes_empty. cbn [orb].
    by rewrite IH.
  - apply filteredRecords_sublist.
  - intros H. unfold Frontend.filteredRecords.
    apply list_elem_of_In, filter_In. split; [by apply list_elem_of_In|].
    unfold Frontend.matches.
    destruct H as [<-|<-]; rewrite includes_refl; [done|apply orb_true_r].
Qed.

Lemma search_finds_witness :
  Frontend.rec1
    ∈ Frontend.filteredRecords id [Frontend.rec1; Frontend.rec2; Frontend.rec3] "0xAbC".
Proof.
  apply (search_finds id [Frontend.rec1; Frontend.rec2; Frontend.rec3] "0xAbC"
           Frontend.rec1).
  - reflexivity.
  - apply list_elem_of_here.
  - right. reflexivity.
Defined.

(** ** Order of the loaded records *)

Lemma insert_sorted_Permutation x l : Frontend.insert_sorted x l ≡ₚ x :: l.
Proof.
  induction l as [|y l IH]; cbn [Frontend.insert_sorted]; [done|].
  destruct (Frontend.compareFn x y <=? 0); [done|].
  rewrite IH. apply Permutation_swap.
Qed.

Lemma sort_Permutation l : Frontend.sort l ≡ₚ l.
Proof.
  induction l as [|x l IH]; cbn [Frontend.sort]; [done|].
  by rewrite insert_sorted_Permutation, IH.
Qed.

Lemma insert_sorted_Sorted x l :
  StronglySorted Frontend.newer_first l ->
  StronglySorted Frontend.newer_first (Frontend.insert_sorted x l).
Proof.
  induction 1 as [|y l Hs IH Hall]; cbn [Frontend.insert_sorted].
  - repeat constructor.
  - unfold Frontend.compareFn.
    destruct (Z.leb_spec (Frontend.timestamp y - Frontend.timestamp x) 0).
    + constructor; [by constructor|]. constructor; [unfold Frontend.newer_first; lia|].
      eapply Forall_impl; [exact Hall|]. unfold Frontend.newer_first. intros z Hz. lia.
    + constructor; [exact IH|].
      rewrite insert_sorted_Permutation. constructor; [|exact Hall].
      unfold Frontend.newer_first. lia.
Qed.

(** X19.  Newest first.  The list that [loadRecords] shows is a
    rearrangement of the records it collected, by falling timestamp. *)
Theorem sort_newest_first l :
  Frontend.sort l ≡ₚ l /\ StronglySorted Frontend.newer_first (Frontend.sort l).
Proof.
  split; [apply sort_Permutation|].
  induction l as [|x l IH]; cbn [Frontend.sort]; [constructor|].
  by apply insert_sorted_Sorted.
Qed.

Lemma insert_sorted_filter t x l :
  List.filter (fun r => Frontend.timestamp r =? t) (Frontend.insert_sorted x l)
  = List.filter (fun r => Frontend.timestamp r =? t) (x :: l).
Proof.
  induction l as [|y l IH]; cbn [Frontend.insert_sorted]; [done|].
  unfold Frontend.compareFn.
  destruct (Z.leb_spec (Frontend.timestamp y - Frontend.timestamp x) 0); [done|].
  cbn [List.filter] in *. rewrite IH.
  destruct (Z.eqb_spec (Frontend.timestamp x) t),
           (Z.eqb_spec (Frontend.timestamp y) t); try done. lia.
Qed.

(** X20.  Records of the same second keep their order: among the records
    with any one timestamp, the sorted list has them in the order in which
    they were collected. *)
Theorem sort_stable l t :
  List.filter (fun r => Frontend.timestamp r =? t) (Frontend.sort l)
  = List.filter (fun r => Frontend.timestamp r =? t) l.
Proof.
  induction l as [|x l IH]; cbn [Frontend.sort]; [done|].
  rewrite insert_sorted_filter. cbn [List.filter]. by rewrite IH.
Qed.
